(** * Contact book assistant (task.py): model and verified properties

    A shallow embedding of [task.py]: the field types [Phone] and
    [Birthday], the contact [Record], the [AddressBook], the command
    handlers behind [input_error], and one turn of the command loop of
    [main].

    Conventions of the model.
    - A Python [str] is a list of Unicode code points.  A string written
      between quotes below stands for the list of the codes of its
      characters, all of them ASCII.
    - The white space of [str.split] is the list of code points CPython
      takes as white space.  What [str.isdigit], the [\d] of regular
      expressions and [int] make of a character is read from the Unicode
      database of the interpreter, which differs from one version to the
      next: the model takes it as an input, [UnicodeData], of which it
      only asks what holds in every version.
    - Python exceptions are values of [exn]; a computation that may raise
      returns a [result].  The only unbounded loop of the program (the
      week-end roll of [get_upcoming_birthdays]) runs on fuel, and
      [OutOfFuel] marks a run whose fuel was too small.
    - [datetime.date] is a record of year, month and day with the
      proleptic Gregorian ordinal of CPython's [datetime] module.
    - The address book is an insertion-ordered dictionary: an association
      list without repeated keys.  A [Record] object stored in the book
      is referred to by its key, so mutating a record found in the book
      is an update of the book at that key.
    - [datetime.today()] is an input of the model ([today]). *)

From Stdlib Require Import ZArith NArith List Bool Ascii String Lia.
From Stdlib Require Import DecimalString.
Import ListNotations.

Local Open Scope string_scope.
Local Open Scope list_scope.
Local Open Scope Z_scope.

(** ** Characters and strings *)

Abbreviation char := N.
Abbreviation str := (list N).

(** The string of an ASCII literal. *)
Definition u (s : string) : str := map N_of_ascii (list_ascii_of_string s).

Coercion u : string >-> list.
Coercion N_of_ascii : ascii >-> N.

(** [a == b] on strings *)
Fixpoint str_eqb (a b : str) : bool :=
  match a, b with
  | [], [] => true
  | x :: a', y :: b' => ((x =? y)%N && str_eqb a' b')%bool
  | _, _ => false
  end.

Definition in_range (lo hi c : char) : bool := ((lo <=? c) && (c <=? hi))%N.

(** A digit of ASCII, ['0'] to ['9']. *)
Definition ascii_digit (c : char) : bool := in_range "0"%char "9"%char c.

(** White space as [str.split()], [str.isspace()] and [int] see it:
    U+0009-000D, U+001C-001F, U+0020, U+0085, U+00A0, U+1680,
    U+2000-200A, U+2028, U+2029, U+202F, U+205F and U+3000. *)
Definition isspace (c : char) : bool :=
  (in_range 9 13 c || in_range 28 32 c || (c =? 133) || (c =? 160)
   || (c =? 5760) || in_range 8192 8202 c || in_range 8232 8233 c
   || (c =? 8239) || (c =? 8287) || (c =? 12288))%N%bool.

(** What the program asks of the Unicode database: which characters
    [str.isdigit()] takes as digits, which the [\d] of a regular
    expression takes as decimal digits, and the value [int] gives a
    decimal digit.  On ASCII both classes are ['0'] to ['9'] with their
    usual values; a decimal digit has a value from 0 to 9 and is no
    white space. *)
Class UnicodeData : Type := {
  isdigit : char -> bool;
  isdecimal : char -> bool;
  decimal_value : char -> Z;
  isdigit_ascii : forall c, (c < 128)%N -> isdigit c = ascii_digit c;
  isdecimal_ascii : forall c, (c < 128)%N -> isdecimal c = ascii_digit c;
  decimal_value_ascii :
    forall c, ascii_digit c = true -> decimal_value c = Z.of_N c - 48;
  decimal_value_bound :
    forall c, isdecimal c = true -> 0 <= decimal_value c <= 9;
  isdecimal_not_space : forall c, isdecimal c = true -> isspace c = false
}.

(** ** Exceptions and results *)

Inductive exn : Type :=
| ValueError (msg : str)
| KeyError
| IndexError
| OverflowError (msg : str).

Inductive result (A : Type) : Type :=
| Ok (a : A)
| Raise (e : exn)
| OutOfFuel.

Arguments Ok {A} & a.
Arguments Raise {A} e.
Arguments OutOfFuel {A}.

Definition rbind {A B : Type} (r : result A) (f : A -> result B) : result B :=
  match r with
  | Ok a => f a
  | Raise e => Raise e
  | OutOfFuel => OutOfFuel
  end.

Notation "x <~ r ;; k" := (rbind r (fun x => k))
  (at level 61, r at next level, right associativity).

(** [char in {'+', '-', '(', ')'}] *)
Definition is_phone_punct (c : char) : bool :=
  ((c =? "+"%char) || (c =? "-"%char) || (c =? "("%char)
   || (c =? ")"%char))%N%bool.

Definition strlen (s : str) : Z := Z.of_nat (List.length s).

(** [''.join(char for char in value if keep(char))] *)
Fixpoint join_if (keep : char -> bool) (value : str) : str :=
  match value with
  | [] => []
  | c :: rest =>
      if keep c then c :: join_if keep rest else join_if keep rest
  end.

(** [sep.join(parts)] *)
Fixpoint join (sep : str) (parts : list str) : str :=
  match parts with
  | [] => []
  | [p] => p
  | p :: ps => p ++ sep ++ join sep ps
  end.

(** Number of characters of [s] that satisfy [p]. *)
Fixpoint count_chars (p : char -> bool) (s : str) : Z :=
  match s with
  | [] => 0
  | c :: rest => (if p c then 1 else 0) + count_chars p rest
  end.

(** ** Field types *)

Module Phone.

Record t : Type := mk { value : str }.

Definition keep `{U : UnicodeData} (c : char) : bool :=
  (isdigit c || is_phone_punct c)%bool.

Definition sanitize `{U : UnicodeData} (value : str) : str :=
  join_if keep value.

(** [Phone.__init__] *)
Definition new `{U : UnicodeData} (value : str) : result t :=
  let sanitized_value := sanitize value in
  if strlen sanitized_value =? 10
  then Ok (mk sanitized_value)
  else Raise (ValueError "Phone number must contain 10 digits.").

End Phone.

(** ** Calendar dates ([datetime.date]) *)

(** [str(n)] for an integer, as [%i] writes it in a message. *)
Definition decimal (n : Z) : str := u (NilZero.string_of_int (Z.to_int n)).

Module Date.

Record t : Type := mk { year : Z; month : Z; day : Z }.

Definition MINYEAR : Z := 1.
Definition MAXYEAR : Z := 9999.

Definition is_leap (y : Z) : bool :=
  ((y mod 4 =? 0) && (negb (y mod 100 =? 0) || (y mod 400 =? 0)))%bool.

(** Days in the months that precede [m] in a common year. *)
Definition DAYS_BEFORE_MONTH (m : Z) : Z :=
  match m with
  | 1 => 0 | 2 => 31 | 3 => 59 | 4 => 90 | 5 => 120 | 6 => 151
  | 7 => 181 | 8 => 212 | 9 => 243 | 10 => 273 | 11 => 304 | 12 => 334
  | _ => 0
  end.

Definition DAYS_IN_MONTH (m : Z) : Z :=
  match m with
  | 1 => 31 | 2 => 28 | 3 => 31 | 4 => 30 | 5 => 31 | 6 => 30
  | 7 => 31 | 8 => 31 | 9 => 30 | 10 => 31 | 11 => 30 | 12 => 31
  | _ => 0
  end.

Definition days_in_month (y m : Z) : Z :=
  if ((m =? 2) && is_leap y)%bool then 29 else DAYS_IN_MONTH m.

Definition days_before_year (y : Z) : Z :=
  let y := y - 1 in y * 365 + y / 4 - y / 100 + y / 400.

Definition days_before_month (y m : Z) : Z :=
  DAYS_BEFORE_MONTH m + (if ((2 <? m) && is_leap y)%bool then 1 else 0).

(** The checks of the [date] constructor. *)
Definition valid_ymd (y m d : Z) : bool :=
  ((MINYEAR <=? y) && (y <=? MAXYEAR) && (1 <=? m) && (m <=? 12)
   && (1 <=? d) && (d <=? days_in_month y m))%bool.

Definition valid (x : t) : bool := valid_ymd (year x) (month x) (day x).

(** [date(y, m, d)] *)
Definition new (y m d : Z) : result t :=
  if negb ((MINYEAR <=? y) && (y <=? MAXYEAR))%bool
  then Raise (ValueError ("year " ++ decimal y ++ " is out of range"))
  else if negb ((1 <=? m) && (m <=? 12))%bool
  then Raise (ValueError "month must be in 1..12")
  else if negb ((1 <=? d) && (d <=? days_in_month y m))%bool
  then Raise (ValueError "day is out of range for month")
  else Ok (mk y m d).

(** [x.replace(year=y)] *)
Definition replace_year (x : t) (y : Z) : result t := new y (month x) (day x).

(** [x.toordinal()]: 1 for 0001-01-01. *)
Definition toordinal (x : t) : Z :=
  days_before_year (year x) + days_before_month (year x) (month x) + day x.

(** [x.weekday()]: 0 for Monday, 5 for Saturday, 6 for Sunday. *)
Definition weekday (x : t) : Z := (toordinal x + 6) mod 7.

(** [a < b] *)
Definition ltb (a b : t) : bool :=
  ((year a <? year b)
   || ((year a =? year b)
       && ((month a <? month b)
           || ((month a =? month b) && (day a <? day b)))))%bool.

(** [x + timedelta(days=1)] on a date object: the day overflows its
    month by at most one, and then the date moves to the first of the
    next month; the result must stay within [MINYEAR..MAXYEAR]. *)
Definition add_one_day (x : t) : result t :=
  let d := day x + 1 in
  let dim := days_in_month (year x) (month x) in
  let '(y, m, d) :=
    if d =? dim + 1
    then (if 12 <? month x + 1 then (year x + 1, 1, 1)
          else (year x, month x + 1, 1))
    else (year x, month x, d) in
  if ((MINYEAR <=? y) && (y <=? MAXYEAR))%bool
  then Ok (mk y m d)
  else Raise (OverflowError "date value out of range").

(** [(a - b).days] *)
Definition days_between (a b : t) : Z := toordinal a - toordinal b.

Definition digit_char (n : Z) : char := (48 + Z.to_N (n mod 10))%N.

Definition pad2 (n : Z) : str := [digit_char (n / 10); digit_char n].

Definition pad4 (n : Z) : str :=
  digit_char (n / 1000) :: digit_char (n / 100) :: pad2 n.

(** [%Y] for the year of a date, 1 to 9999, as the C library writes it:
    the digits of the year, no padding. *)
Definition year_digits (y : Z) : str :=
  if y <? 10 then [digit_char y]
  else if y <? 100 then pad2 y
  else if y <? 1000 then digit_char (y / 100) :: pad2 y
  else pad4 y.

(** [x.strftime("%d.%m.%Y")] *)
Definition strftime (x : t) : str :=
  pad2 (day x) ++ "." ++ pad2 (month x) ++ "." ++ year_digits (year x).

End Date.


(** ** [datetime.strptime(value, "%d.%m.%Y")]

    [strptime] turns the format into a regular expression, one
    alternation per directive, matches it at the start of the text with
    the backtracking matcher of [re], refuses text left over after the
    match, converts the three groups with [int] and builds the date.
    A range [[0-9]] of an expression is a range of ASCII; [\d] is any
    decimal digit of Unicode. *)

Module Strptime.

Inductive re : Type :=
| Cls (p : char -> bool)
| Cat (r1 r2 : re)
| Alt (r1 r2 : re).

(** [rmatch r s k]: match [r] at the start of [s], alternatives in
    order; [k] gets the text consumed and the text that remains, and a
    failure of [k] makes the matcher try the next alternative. *)
Fixpoint rmatch {A : Type} (r : re) (s : str)
         (k : str -> str -> option A) : option A :=
  match r with
  | Cls p =>
      match s with
      | c :: rest => if p c then k [c] rest else None
      | [] => None
      end
  | Cat r1 r2 =>
      rmatch r1 s (fun t1 s1 => rmatch r2 s1 (fun t2 s2 => k (t1 ++ t2) s2))
  | Alt r1 r2 =>
      match rmatch r1 s k with
      | Some a => Some a
      | None => rmatch r2 s k
      end
  end.

(** What it is for a text to match an expression. *)
Inductive matches : re -> str -> Prop :=
| M_Cls (p : char -> bool) (c : char) :
    p c = true -> matches (Cls p) [c]
| M_Cat (r1 r2 : re) (t1 t2 : str) :
    matches r1 t1 -> matches r2 t2 -> matches (Cat r1 r2) (t1 ++ t2)
| M_AltL (r1 r2 : re) (t : str) : matches r1 t -> matches (Alt r1 r2) t
| M_AltR (r1 r2 : re) (t : str) : matches r2 t -> matches (Alt r1 r2) t.

Definition chr (c : char) : re := Cls (N.eqb c).
Definition rng (lo hi : char) : re := Cls (in_range lo hi).

(** [\d]: a decimal digit of any script. *)
Definition digit `{U : UnicodeData} : re := Cls isdecimal.

(** [%d]: [3[0-1]|[1-2]\d|0[1-9]|[1-9]| [1-9]] *)
Definition re_d `{U : UnicodeData} : re :=
  Alt (Cat (chr "3"%char) (rng "0"%char "1"%char))
 (Alt (Cat (rng "1"%char "2"%char) digit)
 (Alt (Cat (chr "0"%char) (rng "1"%char "9"%char))
 (Alt (rng "1"%char "9"%char)
      (Cat (chr " "%char) (rng "1"%char "9"%char))))).

(** [%m]: [1[0-2]|0[1-9]|[1-9]] *)
Definition re_m : re :=
  Alt (Cat (chr "1"%char) (rng "0"%char "2"%char))
 (Alt (Cat (chr "0"%char) (rng "1"%char "9"%char))
      (rng "1"%char "9"%char)).

(** [%Y]: [\d\d\d\d] *)
Definition re_Y `{U : UnicodeData} : re :=
  Cat digit (Cat digit (Cat digit digit)).

Definition dot : re := chr "."%char.

Fixpoint int_digits `{U : UnicodeData} (acc : Z) (s : str) : Z :=
  match s with
  | [] => acc
  | c :: rest => int_digits (10 * acc + decimal_value c) rest
  end.

Fixpoint lstrip (s : str) : str :=
  match s with
  | c :: rest => if isspace c then lstrip rest else s
  | [] => s
  end.

(** [int(text)] for a group of the expression: blanks in front are
    dropped and the decimal digits read. *)
Definition int `{U : UnicodeData} (text : str) : Z :=
  int_digits 0 (lstrip text).

(** The groups [d], [m], [Y] of the first match, and the text after it. *)
Definition match_format `{U : UnicodeData} (data_string : str)
  : option (str * str * str * str) :=
  rmatch re_d data_string (fun d s1 =>
  rmatch dot s1 (fun _ s2 =>
  rmatch re_m s2 (fun m s3 =>
  rmatch dot s3 (fun _ s4 =>
  rmatch re_Y s4 (fun Y s5 => Some (d, m, Y, s5)))))).

(** The text of the two messages of [strptime] is abridged: [Birthday],
    its one caller, replaces the message. *)
Definition strptime `{U : UnicodeData} (data_string : str) : result Date.t :=
  match match_format data_string with
  | None => Raise (ValueError "time data does not match format")
  | Some (d, m, Y, rest) =>
      match rest with
      | [] => Date.new (int Y) (int m) (int d)
      | _ :: _ => Raise (ValueError "unconverted data remains")
      end
  end.

End Strptime.

(** [try: r  except ValueError as e: h(str(e))] *)
Definition except_ValueError {A : Type} (r : result A)
           (h : str -> result A) : result A :=
  match r with
  | Raise (ValueError msg) => h msg
  | _ => r
  end.

Module Birthday.

Record t : Type := mk { value : str; date : Date.t }.

(** [Birthday.__init__] *)
Definition new `{U : UnicodeData} (value : str) : result t :=
  except_ValueError
    (d <~ Strptime.strptime value ;; Ok (mk value d))
    (fun _ => Raise (ValueError "Invalid date format. Use DD.MM.YYYY")).

End Birthday.
(** ** Record: one contact *)

Module Record_.

(** [name] is the value of the [Name] field.  Every [Phone] of
    [phones] is an object of its own: [add_phone] is the only place
    that appends one and it builds the object it appends, so a phone
    is identified by its position in the list. *)
Record t : Type := mk {
  name : str;
  phones : list Phone.t;
  birthday : option Birthday.t
}.

(** [Record.__init__] *)
Definition new (name : str) : t := mk name [] None.

Definition set_phones (self : t) (ps : list Phone.t) : t :=
  mk (name self) ps (birthday self).

Definition set_birthday (self : t) (b : option Birthday.t) : t :=
  mk (name self) (phones self) b.

Definition add_phone `{U : UnicodeData} (self : t) (phone : str) : result t :=
  except_ValueError
    (p <~ Phone.new phone ;; Ok (set_phones self (phones self ++ [p])))
    (fun e => Raise (ValueError ("Error adding phone: " ++ e))).

(** The loop of [remove_phone]: the first phone whose value is [phone]
    is taken out of the list, [None] when the loop runs to its end. *)
Fixpoint remove_loop (phone : str) (ps : list Phone.t)
  : option (list Phone.t) :=
  match ps with
  | [] => None
  | p :: rest =>
      if str_eqb (Phone.value p) phone then Some rest
      else match remove_loop phone rest with
           | Some rest' => Some (p :: rest')
           | None => None
           end
  end.

Definition remove_phone (self : t) (phone : str) : result t :=
  match remove_loop phone (phones self) with
  | Some ps => Ok (set_phones self ps)
  | None => Raise (ValueError "Phone number not found in record.")
  end.

(** The loop of [edit_phone]. *)
Fixpoint edit_loop `{U : UnicodeData}
         (old_phone new_phone : str) (ps : list Phone.t)
  : result (list Phone.t) :=
  match ps with
  | [] => Raise (ValueError "Phone number not found in record.")
  | p :: rest =>
      if str_eqb (Phone.value p) old_phone then
        np <~ except_ValueError (Phone.new new_phone)
                (fun e => Raise (ValueError ("Error: " ++ e))) ;;
        Ok (Phone.mk (Phone.value np) :: rest)
      else
        rest' <~ edit_loop old_phone new_phone rest ;;
        Ok (p :: rest')
  end.

Definition edit_phone `{U : UnicodeData}
         (self : t) (old_phone new_phone : str) : result t :=
  ps <~ edit_loop old_phone new_phone (phones self) ;;
  Ok (set_phones self ps).

Fixpoint find_loop (phone : str) (ps : list Phone.t) : option Phone.t :=
  match ps with
  | [] => None
  | p :: rest =>
      if str_eqb (Phone.value p) phone then Some p
      else find_loop phone rest
  end.

Definition find_phone (self : t) (phone : str) : option Phone.t :=
  find_loop phone (phones self).

(** One element of the list [get_upcoming_birthdays] returns. *)
Record entry : Type := mk_entry {
  entry_name : str;
  congratulation_date : str
}.

(** [while next_birthday.weekday() >= 5: next_birthday += timedelta(days=1)] *)
Fixpoint roll_weekend (fuel : nat) (next_birthday : Date.t) : result Date.t :=
  if 5 <=? Date.weekday next_birthday then
    match fuel with
    | O => OutOfFuel
    | S fuel' =>
        next_birthday <~ Date.add_one_day next_birthday ;;
        roll_weekend fuel' next_birthday
    end
  else Ok next_birthday.

Definition get_upcoming_birthdays (fuel : nat) (today : Date.t) (self : t)
  : result (list entry) :=
  match birthday self with
  | None => Ok []
  | Some b =>
      let birthday := Birthday.date b in
      next_birthday <~ Date.replace_year birthday (Date.year today) ;;
      next_birthday <~ (if Date.ltb next_birthday today
                        then Date.replace_year next_birthday (Date.year today +
                            1)
                        else Ok next_birthday) ;;
      next_birthday <~ roll_weekend fuel next_birthday ;;
      let days_until_birthday := Date.days_between next_birthday today in
      if ((0 <=? days_until_birthday) && (days_until_birthday <=? 7))%bool
      then Ok [mk_entry (name self) (Date.strftime next_birthday)]
      else Ok []
  end.

Definition add_birthday `{U : UnicodeData}
         (self : t) (birthday : str) : result t :=
  except_ValueError
    (b <~ Birthday.new birthday ;; Ok (set_birthday self (Some b)))
    (fun e => Raise (ValueError ("Error adding birthday: " ++ e))).

(** [Record.__str__] *)
Definition str (self : t) : str :=
  let phones_str := join ", " (map Phone.value (phones self)) in
  "Contact name: " ++ name self ++ ", phones: " ++ phones_str
    ++ ", birthday: "
    ++ match birthday self with
       | Some b => Birthday.value b
       | None => "None"
       end.

End Record_.

(** ** AddressBook: an insertion-ordered dictionary from name to record *)

Module AddressBook.

Definition t : Type := list (str * Record_.t).

(** [data.get(name)] *)
Fixpoint get (name : str) (data : t) : option Record_.t :=
  match data with
  | [] => None
  | (k, r) :: rest => if str_eqb k name then Some r else get name rest
  end.

(** [data[name] = record]: a key already there keeps its place. *)
Fixpoint set (name : str) (record : Record_.t) (data : t) : t :=
  match data with
  | [] => [(name, record)]
  | (k, r) :: rest =>
      if str_eqb k name then (k, record) :: rest
      else (k, r) :: set name record rest
  end.

(** [del data[name]] *)
Fixpoint del (name : str) (data : t) : t :=
  match data with
  | [] => []
  | (k, r) :: rest =>
      if str_eqb k name then rest else (k, r) :: del name rest
  end.

(** [name in data] *)
Definition contains (name : str) (data : t) : bool :=
  match get name data with
  | Some _ => true
  | None => false
  end.

Definition keys (data : t) : list str := map fst data.

(** The invariant of a dictionary: no key twice. *)
Definition wf (data : t) : Prop := NoDup (keys data).

Definition add_record (data : t) (record : Record_.t) : t :=
  set (Record_.name record) record data.

(** [delete_record]: the book after the call and the line printed. *)
Definition delete_record (data : t) (name : str) : t * str :=
  if contains name data
  then (del name data, u "Record removed successfully.")
  else (data, u "Record not found.").

Definition find_record (data : t) (name : str) : option Record_.t :=
  get name data.

End AddressBook.

(** ** Command handlers

    A handler reads and mutates the book and returns a string or raises:
    a state and exception monad over the book.  What a handler did to
    the book before it raised stays done. *)

Definition M (A : Type) : Type := AddressBook.t -> result A * AddressBook.t.

Definition ret {A : Type} (a : A) : M A := fun book => (Ok a, book).

Arguments ret {A} & a.

Definition raise {A : Type} (e : exn) : M A := fun book => (Raise e, book).

Definition bind {A B : Type} (m : M A) (f : A -> M B) : M B :=
  fun book =>
    match m book with
    | (Ok a, book') => f a book'
    | (Raise e, book') => (Raise e, book')
    | (OutOfFuel, book') => (OutOfFuel, book')
    end.

Notation "x <- m ;; k" := (bind m (fun x => k))
  (at level 61, m at next level, right associativity).
Notation "m ;;; k" := (bind m (fun _ => k))
  (at level 61, right associativity).

(** [try: m  except ValueError as e: h(str(e))] *)
Definition catch_ValueError {A : Type} (m : M A) (h : str -> M A) : M A :=
  fun book =>
    match m book with
    | (Raise (ValueError msg), book') => h msg book'
    | other => other
    end.

(** [book.find_record(name)] *)
Definition call_find_record (name : str) : M (option Record_.t) :=
  fun book => (Ok (AddressBook.find_record book name), book).

(** [book.add_record(record)] *)
Definition call_add_record (record : Record_.t) : M unit :=
  fun book => (Ok tt, AddressBook.add_record book record).

(** A mutating method called on the record stored under [name]: the
    outcome [r] of the method replaces the record in place, and a method
    that raises leaves it as it was. *)
Definition mutate (name : str) (r : result Record_.t) : M unit :=
  fun book =>
    match r with
    | Ok record' => (Ok tt, AddressBook.set name record' book)
    | Raise e => (Raise e, book)
    | OutOfFuel => (OutOfFuel, book)
    end.

(** The decorator [input_error]. *)
Definition input_error (func : M str) : M str :=
  fun book =>
    match func book with
    | (Raise KeyError, book') => (Ok (u "KeyError"), book')
    | (Raise (ValueError e), book') => (Ok ("ValueError: " ++ e), book')
    | (Raise IndexError, book') => (Ok (u "IndexError"), book')
    | other => other
    end.

Definition len {A : Type} (l : list A) : Z := Z.of_nat (List.length l).

Definition nl : str := [10%N].

Definition too_many_values : exn :=
  ValueError "too many values to unpack (expected 2)".

Definition add_birthday `{U : UnicodeData} (args : list str) : M str :=
  input_error (
    if len args <? 2 then
      ret
          "Not enough arguments. Please provide both name and birthday (DD.MM.YYYY)."
    else
      match args with
      | [name; birthday] =>
          record <- call_find_record name ;;
          match record with
          | Some record =>
              match Record_.birthday record with
              | Some _ => ret ("Birthday already exists for " ++ name ++ ".")
              | None =>
                  catch_ValueError
                    (mutate name (Record_.add_birthday record birthday) ;;;
                     ret ("Birthday added successfully for " ++ name ++ "."))
                    (fun e => ret ("Error adding birthday: " ++ e))
              end
          | None => ret "Record not found."
          end
      | _ => raise too_many_values
      end).

Definition show_birthday (args : list str) : M str :=
  input_error (
    match args with
    | [] => raise IndexError
    | name :: _ =>
        record <- call_find_record name ;;
        match record with
        | Some record =>
            match Record_.birthday record with
            | Some b => ret (name ++ "'s birthday: " ++ Birthday.value b)
            | None => ret (name ++ " has no birthday information.")
            end
        | None => ret "Record not found."
        end
    end).

(** The first loop of [birthdays], over [book.data.values()]. *)
Fixpoint collect_upcoming (fuel : nat) (today : Date.t)
         (records : list Record_.t) : result (list Record_.entry) :=
  match records with
  | [] => Ok []
  | record :: rest =>
      found <~ match Record_.birthday record with
               | Some _ => Record_.get_upcoming_birthdays fuel today record
               | None => Ok []
               end ;;
      more <~ collect_upcoming fuel today rest ;;
      Ok (found ++ more)
  end.

Definition birthdays (fuel : nat) (today : Date.t) (args : list str)
  : M str :=
  input_error (fun book =>
    (upcoming_birthdays <~ collect_upcoming fuel today (map snd book) ;;
     let upcoming_birthday_names :=
       map (fun user => Record_.entry_name user ++ " - "
                        ++ Record_.congratulation_date user)
           upcoming_birthdays in
     match upcoming_birthday_names with
     | _ :: _ => Ok ("Upcoming birthdays:" ++ nl
                     ++ join nl upcoming_birthday_names)
     | [] => Ok (u "No upcoming birthdays in the next 7 days.")
     end,
     book)).

Definition add_contact `{U : UnicodeData} (args : list str) : M str :=
  input_error (
    if len args <? 2 then
      ret "Not enough arguments. Please provide both name and phone number."
    else
      match args with
      | name :: phone :: _ =>
          found <- call_find_record name ;;
          rm <- match found with
                | None =>
                    let record := Record_.new name in
                    call_add_record record ;;;
                    ret (record, u "Contact added.")
                | Some record => ret (record, u "Contact updated.")
                end ;;
          let '(record, message) := rm in
          match phone with
          | _ :: _ =>
              mutate name (Record_.add_phone record phone) ;;; ret message
          | [] => ret message
          end
      | _ => raise (ValueError
          "not enough values to unpack (expected at least 2)")
      end).

Definition change_contact `{U : UnicodeData} (args : list str) : M str :=
  input_error (
    if len args <? 2 then
      ret "Not enough arguments. Please provide both name and new phone number."
    else
      match args with
      | [name; new_phone] =>
          record <- call_find_record name ;;
          match record with
          | Some record =>
              catch_ValueError
                (match Record_.phones record with
                 | [] => raise IndexError
                 | p0 :: _ =>
                     mutate name
                       (Record_.edit_phone record (Phone.value p0) new_phone)
                           ;;;
                     ret ("Phone number updated for " ++ name ++ ".")
                 end)
                (fun e => ret ("Error: " ++ e))
          | None => ret "Record not found."
          end
      | _ => raise too_many_values
      end).

Definition show_phones (args : list str) : M str :=
  input_error (
    if len args <? 1 then ret "Not enough arguments. Please provide a name."
    else
      match args with
      | name :: _ =>
          record <- call_find_record name ;;
          match record with
          | Some record =>
              let phones := join ", " (map Phone.value (Record_.phones record))
                  in
              ret ("Phones for " ++ name ++ ": " ++ phones)
          | None => ret ("Record for " ++ name ++ " not found.")
          end
      | [] => raise IndexError
      end).

Definition show_all : M str :=
  input_error (fun book =>
    (match book with
     | _ :: _ =>
         Ok (join nl (map (fun '(name, record) =>
                             name ++ ": " ++ Record_.str record) book))
     | [] => Ok (u "Address book is empty.")
     end,
     book)).

(** ** The command loop *)

(** [str.split()]: maximal runs of characters that are not white space.
    [tok] is the run being read, [None] between runs. *)
Fixpoint split_from (tok : option str) (s : str) : list str :=
  match s with
  | [] =>
      match tok with
      | Some t => [t]
      | None => []
      end
  | c :: rest =>
      if isspace c then
        match tok with
        | Some t => t :: split_from None rest
        | None => split_from None rest
        end
      else
        split_from (Some (match tok with
                          | Some t => t ++ [c]
                          | None => [c]
                          end)) rest
  end.

Definition split (s : str) : list str := split_from None s.

Definition parse_input (user_input : str) : list str :=
  match user_input with
  | _ :: _ => split user_input
  | [] => []
  end.

(** What one turn of [while True] in [main] comes to. *)
Inductive outcome : Type :=
| Continue (book : AddressBook.t) (printed : str)
| Break (saved : AddressBook.t) (printed : str)
| Uncaught (e : exn) (book : AddressBook.t)
| Unfinished (book : AddressBook.t).

(** [print(handler(args, book))] *)
Definition print_result (r : result str * AddressBook.t) : outcome :=
  match r with
  | (Ok s, book) => Continue book s
  | (Raise e, book) => Uncaught e book
  | (OutOfFuel, book) => Unfinished book
  end.

Definition not_enough_values : exn :=
  ValueError "not enough values to unpack (expected at least 1, got 0)".

(** The body of the loop of [main] for one line read by [input]. *)
Definition main_step `{U : UnicodeData}
           (fuel : nat) (today : Date.t) (book : AddressBook.t)
           (user_input : str) : outcome :=
  match parse_input user_input with
  | [] => Uncaught not_enough_values book
  | command :: args =>
      if (str_eqb command "close" || str_eqb command "exit")%bool
      then Break book "Good bye!"
      else if str_eqb command "hello"
      then Continue book "How can I help you?"
      else if str_eqb command "add"
      then print_result (add_contact args book)
      else if str_eqb command "change"
      then print_result (change_contact args book)
      else if str_eqb command "phone"
      then print_result (show_phones args book)
      else if str_eqb command "all"
      then print_result (show_all book)
      else if str_eqb command "add_birthday"
      then print_result (add_birthday args book)
      else if str_eqb command "show_birthday"
      then print_result (show_birthday args book)
      else if str_eqb command "birthdays"
      then print_result (birthdays fuel today args book)
      else Continue book "Invalid command."
  end.

(** The loop of [main] over the lines it reads, each with the date of
    its turn: the lines printed, and how the loop ended, [None] while it
    is waiting for the next line. *)
Fixpoint main_loop `{U : UnicodeData} (fuel : nat) (book : AddressBook.t)
         (inputs : list (Date.t * str)) : list str * option outcome :=
  match inputs with
  | [] => ([], None)
  | (today, user_input) :: rest =>
      match main_step fuel today book user_input with
      | Continue book' printed =>
          let '(out, fin) := main_loop fuel book' rest in
          (printed :: out, fin)
      | Break saved printed => ([printed], Some (Break saved printed))
      | stop => ([], Some stop)
      end
  end.

(** The book an outcome leaves. *)
Definition outcome_book (o : outcome) : AddressBook.t :=
  match o with
  | Continue book _ => book
  | Break book _ => book
  | Uncaught _ book => book
  | Unfinished book => book
  end.

(** A handler that leaves a dictionary a dictionary. *)
Definition preserves_wf {A : Type} (m : M A) : Prop :=
  forall book, AddressBook.wf book -> AddressBook.wf (snd (m book)).

(** No dot in the text. *)
Fixpoint nodot (s : str) : bool :=
  match s with
  | [] => true
  | c :: rest => (negb ("."%char =? c)%N && nodot rest)%bool
  end.

(** ** The specification's side

    Definitions that follow the words of the specification, to compare
    the code with. *)

Module Spec.

(** "a digit or one of + - ( )" *)
Definition phone_char `{U : UnicodeData} (c : char) : bool :=
  (isdigit c || existsb (N.eqb c) (u "+-()"))%bool.

(** The raw string with every other character removed. *)
Definition filtered `{U : UnicodeData} (raw : str) : str :=
  filter phone_char raw.

(** The strict pattern: two digits, a dot, two digits, a dot, four
    digits, for a reading [digit] of the word. *)
Definition strict_DD_MM_YYYY (digit : char -> bool) (s : str) : bool :=
  match s with
  | [d1; d2; p1; m1; m2; p2; y1; y2; y3; y4] =>
      digit d1 && digit d2 && (p1 =? "."%char)%N
      && digit m1 && digit m2 && (p2 =? "."%char)%N
      && digit y1 && digit y2 && digit y3 && digit y4
  | _ => false
  end%bool.

(** The text of a day as [strptime] takes it: one or two digits of
    ASCII, or 1 or 2 and a decimal digit of any script, or a blank and
    one digit of ASCII. *)
Definition day_text `{U : UnicodeData} (s : str) : bool :=
  match s with
  | [a] => ascii_digit a
  | [a; b] =>
      (ascii_digit a && ascii_digit b)
      || (((a =? "1"%char) || (a =? "2"%char))%N && isdecimal b)
      || ((a =? " "%char)%N && ascii_digit b)
  | _ => false
  end%bool.

(** The text of a month: one or two digits of ASCII. *)
Definition month_text (s : str) : bool :=
  match s with
  | [a] => ascii_digit a
  | [a; b] => (ascii_digit a && ascii_digit b)%bool
  | _ => false
  end.

(** The text of a year: four decimal digits, of any script. *)
Definition year_text `{U : UnicodeData} (s : str) : bool :=
  (forallb isdecimal s && (List.length s =? 4)%nat)%bool.

(** [s] is day.month.year in these texts and names the date [x], a
    date of the Gregorian calendar. *)
Definition date_text `{U : UnicodeData} (s : str) (x : Date.t) : Prop :=
  exists ds ms ys,
    s = ds ++ "." ++ ms ++ "." ++ ys
    /\ day_text ds = true /\ month_text ms = true /\ year_text ys = true
    /\ x = Date.mk (Strptime.int ys) (Strptime.int ms) (Strptime.int ds)
    /\ Date.valid x = true.

(** The birthday's month and day in today's year. *)
Definition this_year (today birthday : Date.t) : Date.t :=
  Date.mk (Date.year today) (Date.month birthday) (Date.day birthday).

(** [a] falls before [b]: it is fewer days away from the first day of
    the calendar. *)
Definition before (a b : Date.t) : bool :=
  Date.toordinal a <? Date.toordinal b.

(** The same in the following year when it falls before today. *)
Definition projected (today birthday : Date.t) : Date.t :=
  if before (this_year today birthday) today
  then Date.mk (Date.year today + 1) (Date.month birthday) (Date.day birthday)
  else this_year today birthday.

(** The month and day of the birthday exist in the year, or the two
    years, the computation projects it onto. *)
Definition projects (today birthday : Date.t) : Prop :=
  Date.valid (this_year today birthday) = true
  /\ Date.valid (projected today birthday) = true.

Definition is_weekend (weekday : Z) : Prop := 5 <= weekday.

(** [next] is [start] rolled forward day by day while it falls on
    Saturday or Sunday: [k] days later, every day before it a week-end
    day, itself not. *)
Definition rolled (start next : Date.t) : Prop :=
  exists k,
    0 <= k <= 2
    /\ Date.toordinal next = Date.toordinal start + k
    /\ (forall j, 0 <= j < k -> is_weekend ((Date.weekday start + j) mod 7))
    /\ ~ is_weekend (Date.weekday next).

Definition feb_29 (x : Date.t) : Prop := Date.month x = 2 /\ Date.day x = 29.

End Spec.

(** What [add] answers when the phone is refused. *)
Definition phone_error : str :=
  "ValueError: Error adding phone: Phone number must contain 10 digits.".

(** ** Sample contacts *)

Definition three_phones : Record_.t :=
  Record_.mk "Ann"
    [Phone.mk "1111111111"; Phone.mk "2222222222"; Phone.mk "3333333333";
     Phone.mk "2222222222"]
    None.

Definition alice : Record_.t :=
  Record_.mk "Alice" [Phone.mk "0501234567"]
             (Some (Birthday.mk "05.01.2024" (Date.mk 2024 1 5))).

Definition born_jan_6 : Record_.t :=
  Record_.mk "Ann" [] (Some (Birthday.mk "06.01.1990" (Date.mk 1990 1 6))).

Definition born_feb_29 : Record_.t :=
  Record_.mk "Leo" [] (Some (Birthday.mk "29.02.2000" (Date.mk 2000 2 29))).

(** ** Invariants of the stored data *)

(** Every character of [s] satisfies [p]. *)
Fixpoint forall_chars (p : char -> bool) (s : str) : bool :=
  match s with
  | [] => true
  | c :: rest => (p c && forall_chars p rest)%bool
  end.

(** A phone as [Phone] stores it: ten characters, each a digit or one
    of + - ( ). *)
Definition phone_ok `{U : UnicodeData} (p : Phone.t) : Prop :=
  List.length (Phone.value p) = 10%nat
  /\ forall_chars Phone.keep (Phone.value p) = true.

(** A birthday as [Birthday] stores it: the date is what the string
    parses to. *)
Definition birthday_ok `{U : UnicodeData} (b : Birthday.t) : Prop :=
  Strptime.strptime (Birthday.value b) = Ok (Birthday.date b).

Definition record_ok `{U : UnicodeData} (r : Record_.t) : Prop :=
  Forall phone_ok (Record_.phones r)
  /\ (forall b, Record_.birthday r = Some b -> birthday_ok b).

(** A book as the commands build it: a dictionary whose keys are the
    names of the records stored under them, every record well formed. *)
Definition book_ok `{U : UnicodeData} (book : AddressBook.t) : Prop :=
  AddressBook.wf book
  /\ Forall (fun kr => Record_.name (snd kr) = fst kr /\ record_ok (snd kr))
            book.

(** A line of white space only. *)
Definition blank (s : str) : bool := forall_chars isspace s.

(** A token of a command line: not empty, no white space in it. *)
Definition token (t : str) : Prop :=
  t <> [] /\ forall_chars (fun c => negb (isspace c)) t = true.

(** The exceptions [input_error] turns into strings. *)
Definition caught {A : Type} (r : result A) : Prop :=
  match r with
  | Ok _ => True
  | Raise (ValueError _) => True
  | Raise KeyError => True
  | Raise IndexError => True
  | Raise (OverflowError _) => False
  | OutOfFuel => False
  end.

(** A handler body that raises nothing else. *)
Definition raises_caught_only {A : Type} (m : M A) : Prop :=
  forall book, caught (fst (m book)).

(** The commands that change the book. *)
Definition mutating_command (command : str) : bool :=
  (str_eqb command "add" || str_eqb command "change"
   || str_eqb command "add_birthday")%bool.

(** The run of characters [split] is reading. *)
Definition current_token (tok : option str) : str :=
  match tok with
  | Some t => t
  | None => []
  end.

(** What a record keeps through a command: its name, its birthday once
    it has one, and the number of its phones at least. *)
Definition persists (r r' : Record_.t) : Prop :=
  Record_.name r' = Record_.name r
  /\ (forall b, Record_.birthday r = Some b -> Record_.birthday r' = Some b)
  /\ (List.length (Record_.phones r) <= List.length (Record_.phones r'))%nat.

(** What a command does to the book: nothing, or one assignment under
    the name it was given, of a record that continues the one stored
    there. *)
Definition effect `{U : UnicodeData}
         (args : list str) (book book' : AddressBook.t) : Prop :=
  book' = book
  \/ exists name rest r',
       args = name :: rest
       /\ book' = AddressBook.set name r' book
       /\ (forall r, AddressBook.get name book = Some r ->
                     persists r r' /\ (record_ok r -> record_ok r'))
       /\ (AddressBook.get name book = None ->
           Record_.name r' = name /\ record_ok r').

(** The loop is waiting for the next line, or has ended by [close] or
    [exit]. *)
Definition graceful (fin : option outcome) : Prop :=
  match fin with
  | None => True
  | Some (Break _ _) => True
  | Some _ => False
  end.


(** ** A table of digits for the examples

    The theorems hold for every [UnicodeData]; the examples are
    evaluated with this one.  It holds the digits among the code points
    below U+0700: the ASCII digits, the superscripts two, three and one
    (U+00B2, U+00B3, U+00B9), which are digits for [str.isdigit] and no
    decimal digits, and the Arabic-Indic and Extended Arabic-Indic
    digits (U+0660-0669 and U+06F0-06F9).  The examples keep to code
    points below U+0700, where the table is that of Unicode. *)

Definition table_isdigit (c : char) : bool :=
  (ascii_digit c || in_range 178 179 c || (c =? 185)%N
   || in_range 1632 1641 c || in_range 1776 1785 c)%bool.

Definition table_isdecimal (c : char) : bool :=
  (ascii_digit c || in_range 1632 1641 c || in_range 1776 1785 c)%bool.

Definition table_decimal_value (c : char) : Z :=
  if ascii_digit c then Z.of_N c - 48
  else if in_range 1632 1641 c then Z.of_N c - 1632
  else if in_range 1776 1785 c then Z.of_N c - 1776
  else -1.

(** Ten Arabic-Indic digits, 0501234567. *)
Definition arabic_indic_phone : str :=
  [1632; 1637; 1632; 1633; 1634; 1635; 1636; 1637; 1638; 1639]%N.

(** 05.01.2024 with the year in Arabic-Indic digits. *)
Definition arabic_indic_year : str :=
  "05.01." ++ [1634; 1632; 1634; 1636]%N.

(** 05.01.2024 with the day in Arabic-Indic digits. *)
Definition arabic_indic_day : str :=
  [1632; 1637]%N ++ ".01.2024".

(** The table has what [UnicodeData] asks. *)
Definition table : UnicodeData.
Proof.
  assert (range_iff : forall lo hi c : char,
             in_range lo hi c = true <-> (lo <= c <= hi)%N)
    by (intros; unfold in_range; rewrite andb_true_iff, !N.leb_le; tauto).
  assert (range_out : forall lo hi c : char,
             (c < lo \/ hi < c)%N -> in_range lo hi c = false)
    by (intros lo hi c Hc; apply not_true_iff_false; rewrite range_iff; lia).
  assert (other : forall c k : char, c <> k -> (c =? k)%N = false)
    by (intros; apply N.eqb_neq; assumption).
  refine {| isdigit := table_isdigit;
            isdecimal := table_isdecimal;
            decimal_value := table_decimal_value |}.
  - intros c Hc; unfold table_isdigit.
    rewrite !range_out, other by lia.
    rewrite !orb_false_r; reflexivity.
  - intros c Hc; unfold table_isdecimal.
    rewrite !range_out by lia.
    rewrite !orb_false_r; reflexivity.
  - intros c Hc; unfold table_decimal_value; rewrite Hc; reflexivity.
  - intros c; unfold table_isdecimal, table_decimal_value, ascii_digit.
    destruct (in_range "0"%char "9"%char c) eqn:E1;
      [intros _; apply range_iff in E1; change (N_of_ascii "0") with 48%N in E1;
       change (N_of_ascii "9") with 57%N in E1; lia|].
    destruct (in_range 1632 1641 c) eqn:E2;
      [intros _; apply range_iff in E2; lia|].
    destruct (in_range 1776 1785 c) eqn:E3;
      [intros _; apply range_iff in E3; lia|].
    discriminate.
  - intros c; unfold table_isdecimal, ascii_digit.
    rewrite !orb_true_iff, !range_iff.
    change (N_of_ascii "0") with 48%N; change (N_of_ascii "9") with 57%N.
    intros Hc; unfold isspace.
    rewrite !range_out by lia.
    rewrite !other by lia.
    reflexivity.
Defined.

(** * Properties *)

(** ** Characters *)

Lemma in_range_iff (lo hi c : char) :
  in_range lo hi c = true <-> (lo <= c <= hi)%N.
Proof. unfold in_range; rewrite andb_true_iff, !N.leb_le; tauto. Qed.

Lemma ascii_digit_iff (c : char) : ascii_digit c = true <-> (48 <= c <= 57)%N.
Proof. apply in_range_iff. Qed.

(** The code of a character written out in the goal or a hypothesis. *)
Ltac eval_codes :=
  repeat match goal with
         | |- context [N_of_ascii (Ascii ?a ?b ?c ?d ?e ?f ?g ?h)] =>
             let v := eval vm_compute in (N_of_ascii (Ascii a b c d e f g h)) in
             change (N_of_ascii (Ascii a b c d e f g h)) with v
         | H : context [N_of_ascii (Ascii ?a ?b ?c ?d ?e ?f ?g ?h)] |- _ =>
             let v := eval vm_compute in (N_of_ascii (Ascii a b c d e f g h)) in
             change (N_of_ascii (Ascii a b c d e f g h)) with v in H
         end.

(** Facts on characters as facts on their codes. *)
Ltac to_codes :=
  repeat match goal with
         | H : N.eqb _ _ = true |- _ => rewrite N.eqb_eq in H
         | H : in_range _ _ _ = true |- _ => rewrite in_range_iff in H
         | H : ascii_digit _ = true |- _ => rewrite ascii_digit_iff in H
         end;
  rewrite ?N.eqb_eq, ?in_range_iff, ?ascii_digit_iff;
  eval_codes.

Lemma in_range_false (lo hi c : char) :
  (c < lo \/ hi < c)%N -> in_range lo hi c = false.
Proof.
  intros H; apply not_true_iff_false; rewrite in_range_iff; lia.
Qed.

Lemma ascii_not_space (c : char) :
  (33 <= c < 128)%N -> isspace c = false.
Proof.
  intros H; unfold isspace.
  rewrite !in_range_false by lia.
  repeat match goal with
         | |- context [(c =? ?k)%N] =>
             replace (c =? k)%N with false by (symmetry; apply N.eqb_neq; lia)
         end.
  reflexivity.
Qed.

Lemma digit_not_space (c : char) : ascii_digit c = true -> isspace c = false.
Proof. rewrite ascii_digit_iff; intros H; apply ascii_not_space; lia. Qed.

Lemma digit_not_dot (c : char) :
  ascii_digit c = true -> ("."%char =? c)%N = false.
Proof. rewrite ascii_digit_iff; intros H; apply N.eqb_neq; eval_codes; lia. Qed.

Lemma blank_not_dot (c : char) :
  (c =? " "%char)%N = true -> ("."%char =? c)%N = false.
Proof. rewrite N.eqb_eq; intros ->; reflexivity. Qed.

Section Digits.

Context `{U : UnicodeData}.

Lemma ascii_digit_isdigit (c : char) : ascii_digit c = true -> isdigit c = true.
Proof.
  intros H; rewrite isdigit_ascii; [exact H|].
  apply ascii_digit_iff in H; lia.
Qed.

Lemma ascii_digit_isdecimal (c : char) :
  ascii_digit c = true -> isdecimal c = true.
Proof.
  intros H; rewrite isdecimal_ascii; [exact H|].
  apply ascii_digit_iff in H; lia.
Qed.

Lemma decimal_not_dot (c : char) :
  isdecimal c = true -> ("."%char =? c)%N = false.
Proof.
  intros H; apply N.eqb_neq; intros <-.
  rewrite isdecimal_ascii in H by reflexivity; discriminate.
Qed.

Lemma decimal_not_blank (c : char) :
  isdecimal c = true -> (c =? " "%char)%N = false.
Proof.
  intros H; apply N.eqb_neq; intros ->.
  rewrite isdecimal_ascii in H by reflexivity; discriminate.
Qed.

End Digits.

(** ** Strings *)

Lemma str_eqb_eq (a b : str) : str_eqb a b = true <-> a = b.
Proof.
  revert b; induction a as [|x a IH]; intros [|y b]; simpl;
    try (split; [discriminate | discriminate]); [tauto|].
  rewrite andb_true_iff, N.eqb_eq, IH.
  split; [intros [-> ->]; reflexivity | intros [= -> ->]; auto].
Qed.

Lemma str_eqb_refl (a : str) : str_eqb a a = true.
Proof. apply str_eqb_eq; reflexivity. Qed.

Lemma str_eqb_neq (a b : str) : str_eqb a b = false <-> a <> b.
Proof. rewrite <- str_eqb_eq; symmetry; apply not_true_iff_false. Qed.

Lemma str_eqb_spec (a b : str) : reflect (a = b) (str_eqb a b).
Proof. apply iff_reflect; symmetry; apply str_eqb_eq. Qed.

Lemma append_assoc (a b c : str) : (a ++ b) ++ c = a ++ b ++ c.
Proof. symmetry; apply app_assoc. Qed.

Lemma append_nil_r (a : str) : a ++ [] = a.
Proof. apply app_nil_r. Qed.

Lemma append_same_length (a a' b b' : str) :
  List.length a = List.length a' ->
  a ++ b = a' ++ b' -> a = a' /\ b = b'.
Proof.
  revert a'; induction a as [|x a IH]; intros [|x' a']; simpl;
    try discriminate; [auto|].
  intros [= Hl] [= -> H]; destruct (IH a' Hl H) as [-> ->]; auto.
Qed.

Lemma split_at_dot (a a' b b' : str) :
  nodot a = true -> nodot a' = true ->
  a ++ "." ++ b = a' ++ "." ++ b' -> a = a' /\ b = b'.
Proof.
  change (u ".") with [46%N].
  revert a'; induction a as [|x a IH]; intros [|x' a']; cbn [nodot app].
  - intros _ _ [= ->]; auto.
  - intros _ H [= <- _]; discriminate.
  - intros H _ [= -> _]; discriminate.
  - rewrite !andb_true_iff; intros [_ Ha] [_ Ha'] [= -> H].
    destruct (IH a' Ha Ha' H) as [-> ->]; auto.
Qed.

(** ** Phone *)

Section PhoneProperties.

Context `{U : UnicodeData}.

Lemma keep_phone_char (c : char) : Phone.keep c = Spec.phone_char c.
Proof.
  unfold Phone.keep, Spec.phone_char, is_phone_punct; simpl.
  rewrite orb_false_r, !orb_assoc; reflexivity.
Qed.

Lemma sanitize_filtered (raw : str) : Phone.sanitize raw = Spec.filtered raw.
Proof.
  unfold Phone.sanitize, Spec.filtered.
  induction raw as [|c rest IH]; simpl; [reflexivity|].
  rewrite keep_phone_char.
  destruct (Spec.phone_char c); simpl; rewrite IH; reflexivity.
Qed.

Lemma strlen_10 (s : str) : (strlen s =? 10) = (List.length s =? 10)%nat.
Proof.
  unfold strlen.
  destruct (Nat.eqb_spec (List.length s) 10) as [E|E].
  - rewrite E; reflexivity.
  - apply Z.eqb_neq; lia.
Qed.

(** On a string of ASCII, [isdigit] is the test of ['0'] to ['9']. *)
Lemma join_if_ascii (s : str) :
  forallb (fun c => c <? 128)%N s = true ->
  Phone.sanitize s
  = join_if (fun c => (ascii_digit c || is_phone_punct c)%bool) s.
Proof.
  unfold Phone.sanitize, Phone.keep.
  induction s as [|c s IH]; simpl; [reflexivity|].
  rewrite andb_true_iff, N.ltb_lt; intros [Hc Hs].
  rewrite isdigit_ascii, IH by assumption; reflexivity.
Qed.

Lemma count_chars_ascii (s : str) :
  forallb (fun c => c <? 128)%N s = true ->
  count_chars isdigit s = count_chars ascii_digit s.
Proof.
  induction s as [|c s IH]; simpl; [reflexivity|].
  rewrite andb_true_iff, N.ltb_lt; intros [Hc Hs].
  rewrite isdigit_ascii, IH by assumption; reflexivity.
Qed.

End PhoneProperties.

(** C4: [Phone] keeps of the raw string the digits (the characters
    [str.isdigit] takes as digits) and the characters + - ( ) and
    nothing else; it succeeds exactly when what is kept has length 10,
    and the value it stores is what is kept; otherwise it raises
    ["Phone number must contain 10 digits."]. *)
Theorem phone_new_filtered `{U : UnicodeData} (raw : str) :
  (forall p, Phone.new raw = Ok p ->
             Phone.value p = Spec.filtered raw
             /\ List.length (Spec.filtered raw) = 10%nat)
  /\ (List.length (Spec.filtered raw) = 10%nat ->
      Phone.new raw = Ok (Phone.mk (Spec.filtered raw)))
  /\ (List.length (Spec.filtered raw) <> 10%nat ->
      Phone.new raw = Raise (ValueError
          "Phone number must contain 10 digits.")).
Proof.
  unfold Phone.new; cbv zeta.
  rewrite strlen_10, sanitize_filtered.
  destruct (Nat.eqb_spec (List.length (Spec.filtered raw)) 10) as [E|E].
  - split; [|split]; [| reflexivity | congruence].
    intros p H; injection H as <-; simpl; auto.
  - split; [|split]; [discriminate | congruence | reflexivity].
Qed.

Lemma phone_new_filtered_witness :
  List.length (Spec.filtered (U := table) "(050) 123-4x") = 10%nat
  /\ Phone.new (U := table) "(050) 123-4x" = Ok (Phone.mk "(050)123-4").
Proof.
  split; [reflexivity|].
  apply (proj1 (proj2 (phone_new_filtered (U := table) "(050) 123-4x"))).
  reflexivity.
Defined.

(** Digits of another script are digits for [Phone], and so are the
    superscript digits. *)
Example phone_arabic_indic :
  Phone.new (U := table) arabic_indic_phone = Ok (Phone.mk arabic_indic_phone).
Proof. reflexivity. Qed.

Example phone_superscripts :
  Phone.new (U := table) ("0501234" ++ [178; 179; 185]%N)
  = Ok (Phone.mk ("0501234" ++ [178; 179; 185]%N)).
Proof. reflexivity. Qed.

(** C3: a stored phone value is a string of exactly 10 digits.  The code
    counts the kept characters + - ( ) towards the 10: it accepts
    +123456789, a value with 9 digits. *)
Theorem phone_not_ten_digits `{U : UnicodeData} :
  Phone.new "+123456789" = Ok (Phone.mk "+123456789")
  /\ count_chars isdigit "+123456789" = 9.
Proof.
  unfold Phone.new.
  rewrite join_if_ascii, count_chars_ascii by reflexivity.
  split; reflexivity.
Qed.

Example phone_ten_digits_refused `{U : UnicodeData} :
  count_chars isdigit "(050)1234567" = 10
  /\ Phone.new "(050)1234567"
     = Raise (ValueError "Phone number must contain 10 digits.").
Proof.
  unfold Phone.new.
  rewrite join_if_ascii, count_chars_ascii by reflexivity.
  split; reflexivity.
Qed.
(** ** Record: the phone list *)

Section FirstMatch.

Context `{U : UnicodeData}.

Variable v : str.
Variable p : Phone.t.
Variable after : list Phone.t.
Hypothesis p_matches : Phone.value p = v.

Lemma remove_loop_first (before : list Phone.t) :
  Forall (fun q => Phone.value q <> v) before ->
  Record_.remove_loop v (before ++ p :: after)
  = Some (before ++ after).
Proof.
  induction 1 as [|q qs Hq _ IH]; simpl.
  - rewrite p_matches, str_eqb_refl; reflexivity.
  - apply str_eqb_neq in Hq; rewrite Hq, IH; reflexivity.
Qed.

Lemma edit_loop_first (before : list Phone.t) (new_phone : str)
      (np : Phone.t) :
  Forall (fun q => Phone.value q <> v) before ->
  Phone.new new_phone = Ok np ->
  Record_.edit_loop v new_phone (before ++ p :: after)
  = Ok (before ++ np :: after).
Proof.
  intros Hbefore Hnew.
  induction Hbefore as [|q qs Hq _ IH]; simpl.
  - rewrite p_matches, str_eqb_refl, Hnew; simpl.
    destruct np; reflexivity.
  - apply str_eqb_neq in Hq; rewrite Hq, IH; reflexivity.
Qed.

Lemma edit_loop_first_invalid (before : list Phone.t) (new_phone : str)
      (e : exn) :
  Forall (fun q => Phone.value q <> v) before ->
  Phone.new new_phone = Raise e ->
  exists e', Record_.edit_loop v new_phone (before ++ p :: after)
             = Raise e'.
Proof.
  intros Hbefore Hnew.
  induction Hbefore as [|q qs Hq _ IH]; simpl.
  - rewrite p_matches, str_eqb_refl, Hnew; simpl.
    destruct e; simpl; eauto.
  - apply str_eqb_neq in Hq; rewrite Hq.
    destruct IH as [e' ->]; simpl; eauto.
Qed.

End FirstMatch.

(** C6: when the phones of a record are [before], then [p] with value
    [v], then [after], and no phone of [before] has value [v] (so [p] is
    the first match and [after] may hold more phones equal to [v]),
    [edit_phone v new] replaces [p] alone, every other phone and the
    length of the list staying as they were, and changes nothing when
    [new] is refused; [remove_phone v] takes [p] alone out. *)
Theorem edit_remove_first_match_only `{U : UnicodeData}
        (self : Record_.t) (v new : str) (before after : list Phone.t)
        (p : Phone.t) :
  Record_.phones self = (before ++ p :: after) ->
  Forall (fun q => Phone.value q <> v) before ->
  Phone.value p = v ->
  (forall np, Phone.new new = Ok np ->
     Record_.edit_phone self v new
     = Ok (Record_.set_phones self (before ++ np :: after))
     /\ List.length (before ++ np :: after)
        = List.length (Record_.phones self))
  /\ (forall e, Phone.new new = Raise e ->
        exists e', Record_.edit_phone self v new = Raise e')
  /\ Record_.remove_phone self v
     = Ok (Record_.set_phones self (before ++ after)).
Proof.
  intros Hps Hbefore Hp.
  unfold Record_.edit_phone, Record_.remove_phone.
  rewrite Hps, (remove_loop_first v p after Hp before Hbefore).
  split; [|split; [|reflexivity]].
  - intros np Hnew.
    rewrite (edit_loop_first v p after Hp before new np Hbefore Hnew); simpl.
    split; [reflexivity|].
    rewrite !length_app; reflexivity.
  - intros e Hnew.
    destruct (edit_loop_first_invalid v p after Hp before new e Hbefore Hnew)
      as [e' ->]; simpl; eauto.
Qed.

Lemma edit_remove_first_match_only_witness :
  Record_.edit_phone (U := table) three_phones "2222222222" "(044)55566"
  = Ok (Record_.mk "Ann"
          [Phone.mk "1111111111"; Phone.mk "(044)55566"; Phone.mk "3333333333";
           Phone.mk "2222222222"] None)
  /\ Record_.remove_phone three_phones "2222222222"
     = Ok (Record_.mk "Ann"
          [Phone.mk "1111111111"; Phone.mk "3333333333"; Phone.mk "2222222222"]
          None).
Proof.
  destruct (edit_remove_first_match_only (U := table) three_phones
              "2222222222" "(044)55566"
              [Phone.mk "1111111111"]
              [Phone.mk "3333333333"; Phone.mk "2222222222"]
              (Phone.mk "2222222222"))
    as (He & _ & Hr).
  - reflexivity.
  - repeat constructor; discriminate.
  - reflexivity.
  - split; [|exact Hr].
    exact (proj1 (He (Phone.mk "(044)55566") eq_refl)).
Defined.

(** ** AddressBook: the dictionary *)

Lemma get_None_notin (name : str) (data : AddressBook.t) :
  AddressBook.get name data = None <-> ~ In name (AddressBook.keys data).
Proof.
  induction data as [|[k r] data IH]; simpl; [tauto|].
  destruct (str_eqb_spec k name) as [->|Hk].
  - split; [discriminate | tauto].
  - rewrite IH; tauto.
Qed.

Lemma get_Some_split (name : str) (r : Record_.t) (data : AddressBook.t) :
  AddressBook.get name data = Some r ->
  exists l1 l2, data = (l1 ++ (name, r) :: l2)
                /\ ~ In name (AddressBook.keys l1).
Proof.
  induction data as [|[k r1] data IH]; simpl; [discriminate|].
  destruct (str_eqb_spec k name) as [->|Hk].
  - intros [= ->]; exists [], data; simpl; tauto.
  - intros H; destruct (IH H) as (l1 & l2 & -> & Hn).
    exists ((k, r1) :: l1), l2; simpl; split; [reflexivity|].
    intros [?|?]; [congruence | tauto].
Qed.

Lemma del_first (name : str) (r : Record_.t) (l1 l2 : AddressBook.t) :
  ~ In name (AddressBook.keys l1) ->
  AddressBook.del name (l1 ++ (name, r) :: l2) = (l1 ++ l2).
Proof.
  induction l1 as [|[k r1] l1 IH]; simpl; intros Hn.
  - rewrite str_eqb_refl; reflexivity.
  - destruct (str_eqb_spec k name) as [->|_]; [tauto|].
    rewrite IH by tauto; reflexivity.
Qed.

Lemma set_absent (name : str) (r : Record_.t) (data : AddressBook.t) :
  AddressBook.get name data = None ->
  AddressBook.set name r data = (data ++ [(name, r)]).
Proof.
  induction data as [|[k r1] data IH]; simpl; [reflexivity|].
  destruct (str_eqb k name); [discriminate|].
  intros H; rewrite IH by assumption; reflexivity.
Qed.

Lemma get_set_same (name : str) (r : Record_.t) (data : AddressBook.t) :
  AddressBook.get name (AddressBook.set name r data) = Some r.
Proof.
  induction data as [|[k r1] data IH]; simpl.
  - rewrite str_eqb_refl; reflexivity.
  - destruct (str_eqb_spec k name) as [->|Hk]; simpl.
    + rewrite str_eqb_refl; reflexivity.
    + apply str_eqb_neq in Hk; rewrite Hk; exact IH.
Qed.

Lemma get_set_other (name other : str) (r : Record_.t) (data : AddressBook.t) :
  other <> name ->
  AddressBook.get other (AddressBook.set name r data)
  = AddressBook.get other data.
Proof.
  intros Hne.
  induction data as [|[k r1] data IH]; simpl.
  - destruct (str_eqb_spec name other); [congruence | reflexivity].
  - destruct (str_eqb_spec k name) as [->|Hk]; simpl.
    + destruct (str_eqb_spec name other); [congruence | reflexivity].
    + rewrite IH; reflexivity.
Qed.

Lemma keys_set_present (name : str) (r : Record_.t) (data : AddressBook.t) :
  AddressBook.get name data <> None ->
  AddressBook.keys (AddressBook.set name r data) = AddressBook.keys data.
Proof.
  induction data as [|[k r1] data IH]; simpl; [congruence|].
  destruct (str_eqb_spec k name) as [->|Hk]; simpl; [reflexivity|].
  intros H; rewrite IH by assumption; reflexivity.
Qed.

(** The dictionary stays one under assignment and deletion. *)
Lemma wf_set (name : str) (r : Record_.t) (data : AddressBook.t) :
  AddressBook.wf data -> AddressBook.wf (AddressBook.set name r data).
Proof.
  unfold AddressBook.wf; intros Hwf.
  destruct (AddressBook.get name data) eqn:E.
  - rewrite keys_set_present by congruence; exact Hwf.
  - rewrite set_absent by assumption.
    unfold AddressBook.keys; rewrite map_app; simpl.
    apply NoDup_app; [exact Hwf | repeat constructor; simpl; tauto|].
    intros k Hk [<-|[]].
    apply get_None_notin in E; exact (E Hk).
Qed.

Lemma keys_del_incl (name : str) (data : AddressBook.t) (k : str) :
  In k (AddressBook.keys (AddressBook.del name data)) ->
  In k (AddressBook.keys data).
Proof.
  induction data as [|[k1 r1] data IH]; simpl; [tauto|].
  destruct (str_eqb k1 name); simpl; tauto.
Qed.

Lemma wf_del (name : str) (data : AddressBook.t) :
  AddressBook.wf data -> AddressBook.wf (AddressBook.del name data).
Proof.
  unfold AddressBook.wf.
  induction data as [|[k r] data IH]; simpl; intros Hwf; [constructor|].
  inversion Hwf as [|? ? Hk Hrest]; subst.
  destruct (str_eqb k name); simpl; [exact Hrest|].
  constructor; [|apply IH; exact Hrest].
  intros Hin; apply Hk; eapply keys_del_incl; exact Hin.
Qed.

Lemma get_del_same (name : str) (data : AddressBook.t) :
  AddressBook.wf data ->
  AddressBook.get name (AddressBook.del name data) = None.
Proof.
  unfold AddressBook.wf.
  induction data as [|[k r] data IH]; simpl; intros Hwf; [reflexivity|].
  inversion Hwf as [|? ? Hk Hrest]; subst.
  destruct (str_eqb_spec k name) as [->|Hne]; simpl.
  - apply get_None_notin; exact Hk.
  - apply str_eqb_neq in Hne; rewrite Hne; apply IH; exact Hrest.
Qed.

Lemma get_del_other (name other : str) (data : AddressBook.t) :
  other <> name ->
  AddressBook.get other (AddressBook.del name data)
  = AddressBook.get other data.
Proof.
  intros Hne.
  induction data as [|[k r] data IH]; simpl; [reflexivity|].
  destruct (str_eqb_spec k name) as [->|Hk]; simpl.
  - destruct (str_eqb_spec name other); [congruence | reflexivity].
  - rewrite IH; reflexivity.
Qed.

(** C9: [delete_record] of a name that is not in the book returns (it
    does not raise), prints ["Record not found."] and leaves the book as
    it was; of a name that is in the book it takes out that one entry:
    the entries before and after it stay, in their order, every other
    name is looked up as before, and the name is no longer found. *)
Theorem delete_record_frame (data : AddressBook.t) (name : str) :
  (AddressBook.get name data = None ->
   AddressBook.delete_record data name = (data, u "Record not found."))
  /\ (forall r, AddressBook.get name data = Some r ->
      exists l1 l2,
        data = (l1 ++ (name, r) :: l2)
        /\ ~ In name (AddressBook.keys l1)
        /\ AddressBook.delete_record data name
           = ((l1 ++ l2), u "Record removed successfully.")
        /\ (forall other, other <> name ->
              AddressBook.get other (l1 ++ l2) = AddressBook.get other data)
        /\ (AddressBook.wf data -> AddressBook.get name (l1 ++ l2) = None)).
Proof.
  unfold AddressBook.delete_record, AddressBook.contains.
  split.
  - intros ->; reflexivity.
  - intros r Hget; rewrite Hget.
    destruct (get_Some_split name r data Hget) as (l1 & l2 & Hdata & Hn).
    exists l1, l2.
    assert (Hdel : AddressBook.del name data = (l1 ++ l2))
      by (rewrite Hdata; apply del_first; exact Hn).
    rewrite Hdel; repeat split; try assumption.
    + intros other Hne; rewrite <- Hdel; apply get_del_other; exact Hne.
    + intros Hwf; rewrite <- Hdel; apply get_del_same; exact Hwf.
Qed.

Lemma delete_record_frame_witness :
  AddressBook.delete_record [(u "Alice", alice); (u "Ann", born_jan_6)] "Bob"
  = ([(u "Alice", alice); (u "Ann", born_jan_6)], u "Record not found.")
  /\ exists l1 l2,
       AddressBook.delete_record
         [(u "Alice", alice); (u "Ann", born_jan_6)] "Ann"
       = ((l1 ++ l2), u "Record removed successfully.")
       /\ AddressBook.get "Ann" (l1 ++ l2) = None.
Proof.
  split.
  - apply (proj1 (delete_record_frame
                    [(u "Alice", alice); (u "Ann", born_jan_6)] "Bob")).
    reflexivity.
  - destruct (proj2 (delete_record_frame
                       [(u "Alice", alice); (u "Ann", born_jan_6)] "Ann")
                    born_jan_6 eq_refl)
      as (l1 & l2 & _ & _ & Hdel & _ & Hgone).
    exists l1, l2; split; [exact Hdel|].
    apply Hgone; repeat constructor; simpl; intuition discriminate.
Defined.

Example delete_record_present :
  AddressBook.delete_record [(u "Alice", alice); (u "Ann", born_jan_6)] "Alice"
  = ([(u "Ann", born_jan_6)], u "Record removed successfully.").
Proof. reflexivity. Qed.

(** ** Dates *)

Lemma valid_ymd_iff (y m d : Z) :
  Date.valid_ymd y m d = true
  <-> 1 <= y <= 9999 /\ 1 <= m <= 12 /\ 1 <= d <= Date.days_in_month y m.
Proof.
  unfold Date.valid_ymd, Date.MINYEAR, Date.MAXYEAR.
  rewrite !andb_true_iff, !Z.leb_le; tauto.
Qed.

Lemma new_valid (y m d : Z) :
  Date.valid_ymd y m d = true -> Date.new y m d = Ok (Date.mk y m d).
Proof.
  intros H; apply valid_ymd_iff in H; destruct H as (Hy & Hm & Hd).
  unfold Date.new, Date.MINYEAR, Date.MAXYEAR.
  replace (1 <=? y) with true by (symmetry; apply Z.leb_le; lia).
  replace (y <=? 9999) with true by (symmetry; apply Z.leb_le; lia).
  replace (1 <=? m) with true by (symmetry; apply Z.leb_le; lia).
  replace (m <=? 12) with true by (symmetry; apply Z.leb_le; lia).
  replace (1 <=? d) with true by (symmetry; apply Z.leb_le; lia).
  replace (d <=? Date.days_in_month y m) with true
    by (symmetry; apply Z.leb_le; lia).
  reflexivity.
Qed.

Lemma new_Ok (y m d : Z) (x : Date.t) :
  Date.new y m d = Ok x -> x = Date.mk y m d /\ Date.valid_ymd y m d = true.
Proof.
  unfold Date.new.
  destruct ((Date.MINYEAR <=? y) && (y <=? Date.MAXYEAR))%bool eqn:Ey; simpl;
    [|discriminate].
  destruct ((1 <=? m) && (m <=? 12))%bool eqn:Em; simpl; [|discriminate].
  destruct ((1 <=? d) && (d <=? Date.days_in_month y m))%bool eqn:Ed; simpl;
    [|discriminate].
  intros [= <-]; split; [reflexivity|].
  unfold Date.valid_ymd.
  apply andb_true_iff in Ey, Em, Ed.
  destruct Ey as [-> ->], Em as [-> ->], Ed as [-> ->]; reflexivity.
Qed.

Lemma new_invalid (y m d : Z) :
  Date.valid_ymd y m d = false -> exists msg, Date.new y m d = Raise (ValueError
      msg).
Proof.
  intros H; destruct (Date.new y m d) as [x| e |] eqn:E.
  - apply new_Ok in E; destruct E; congruence.
  - unfold Date.new in E.
    repeat match type of E with
           | (if ?c then _ else _) = _ => destruct c
           end; inversion E; eauto.
  - unfold Date.new in E.
    repeat match type of E with
           | (if ?c then _ else _) = _ => destruct c
           end; inversion E.
Qed.

Example year_out_of_range :
  Date.replace_year (Date.mk 9999 3 1) 10000
  = Raise (ValueError "year 10000 is out of range").
Proof. reflexivity. Qed.

Example year_zero :
  Date.new 0 1 1 = Raise (ValueError "year 0 is out of range").
Proof. reflexivity. Qed.

Lemma month_cases (m : Z) :
  1 <= m <= 12 ->
  m = 1 \/ m = 2 \/ m = 3 \/ m = 4 \/ m = 5 \/ m = 6
  \/ m = 7 \/ m = 8 \/ m = 9 \/ m = 10 \/ m = 11 \/ m = 12.
Proof. lia. Qed.

Ltac each_month H :=
  apply month_cases in H;
  repeat (destruct H as [H|H]); subst.

Lemma days_before_next_month (y m : Z) :
  1 <= m <= 11 ->
  Date.days_before_month y (m + 1)
  = Date.days_before_month y m + Date.days_in_month y m.
Proof.
  intros Hm.
  assert (Hm' : 1 <= m <= 12) by lia.
  unfold Date.days_before_month, Date.days_in_month.
  each_month Hm'; try lia; destruct (Date.is_leap y); reflexivity.
Qed.

Lemma days_before_next_year (y : Z) :
  Date.days_before_year (y + 1)
  = Date.days_before_year y + Date.days_before_month y 12 + 31.
Proof.
  unfold Date.days_before_year, Date.days_before_month, Date.is_leap; simpl.
  replace (y + 1 - 1) with y by lia.
  destruct (Z.eqb_spec (y mod 4) 0), (Z.eqb_spec (y mod 100) 0),
    (Z.eqb_spec (y mod 400) 0); simpl;
    Z.to_euclidean_division_equations; lia.
Qed.

Lemma add_one_day_ordinal (x x' : Date.t) :
  Date.valid x = true ->
  Date.add_one_day x = Ok x' ->
  Date.toordinal x' = Date.toordinal x + 1 /\ Date.valid x' = true.
Proof.
  destruct x as [y m d]; unfold Date.valid; simpl.
  intros Hv; apply valid_ymd_iff in Hv; destruct Hv as (Hy & Hm & Hd).
  unfold Date.add_one_day; simpl.
  destruct (Z.eqb_spec (d + 1) (Date.days_in_month y m + 1)) as [Hlast|Hmid].
  - destruct (Z.ltb_spec 12 (m + 1)) as [Hdec|Hnodec].
    + assert (m = 12) by lia; subst m.
      destruct ((Date.MINYEAR <=? y + 1) && (y + 1 <=? Date.MAXYEAR))%bool
          eqn:E;
        [|discriminate].
      intros [= <-]; unfold Date.toordinal, Date.valid; simpl Date.year;
        simpl Date.month; simpl Date.day.
      split.
      * rewrite days_before_next_year.
        assert (d = 31) by (unfold Date.days_in_month in Hlast; simpl in Hlast;
            lia).
        subst d; unfold Date.days_before_month at 2; simpl; lia.
      * apply valid_ymd_iff.
        apply andb_true_iff in E; destruct E as [E1 E2].
        unfold Date.MINYEAR, Date.MAXYEAR in *.
        apply Z.leb_le in E1, E2.
        unfold Date.days_in_month; simpl; lia.
    + replace ((Date.MINYEAR <=? y) && (y <=? Date.MAXYEAR))%bool with true
        by (symmetry; unfold Date.MINYEAR, Date.MAXYEAR;
            apply andb_true_iff; rewrite !Z.leb_le; lia).
      intros [= <-]; unfold Date.toordinal, Date.valid; simpl Date.year;
        simpl Date.month; simpl Date.day.
      split.
      * rewrite days_before_next_month by lia; lia.
      * apply valid_ymd_iff; repeat split; try lia.
        assert (Hm' : 1 <= m + 1 <= 12) by lia.
        unfold Date.days_in_month.
        destruct ((m + 1 =? 2) && Date.is_leap y)%bool; [lia|].
        apply month_cases in Hm'.
        repeat (destruct Hm' as [Hm'|Hm']); rewrite Hm'; simpl; lia.
  - replace ((Date.MINYEAR <=? y) && (y <=? Date.MAXYEAR))%bool with true
      by (symmetry; unfold Date.MINYEAR, Date.MAXYEAR;
          apply andb_true_iff; rewrite !Z.leb_le; lia).
    intros [= <-]; unfold Date.toordinal, Date.valid; simpl.
    split; [lia|].
    apply valid_ymd_iff; lia.
Qed.

Lemma add_one_day_total (x : Date.t) :
  Date.valid x = true ->
  x <> Date.mk 9999 12 31 ->
  exists x', Date.add_one_day x = Ok x'.
Proof.
  destruct x as [y m d]; unfold Date.valid; simpl.
  intros Hv Hne; apply valid_ymd_iff in Hv; destruct Hv as (Hy & Hm & Hd).
  unfold Date.add_one_day; simpl.
  destruct (Z.eqb_spec (d + 1) (Date.days_in_month y m + 1)) as [Hlast|Hmid].
  - destruct (Z.ltb_spec 12 (m + 1)) as [Hdec|Hnodec].
    + assert (m = 12) by lia; subst m.
      assert (d = 31) by (unfold Date.days_in_month in Hlast; simpl in Hlast;
          lia).
      subst d.
      assert (y <> 9999) by congruence.
      replace ((Date.MINYEAR <=? y + 1) && (y + 1 <=? Date.MAXYEAR))%bool
        with true
        by (symmetry; unfold Date.MINYEAR, Date.MAXYEAR;
            apply andb_true_iff; rewrite !Z.leb_le; lia).
      eauto.
    + replace ((Date.MINYEAR <=? y) && (y <=? Date.MAXYEAR))%bool with true
        by (symmetry; unfold Date.MINYEAR, Date.MAXYEAR;
            apply andb_true_iff; rewrite !Z.leb_le; lia).
      eauto.
  - replace ((Date.MINYEAR <=? y) && (y <=? Date.MAXYEAR))%bool with true
      by (symmetry; unfold Date.MINYEAR, Date.MAXYEAR;
          apply andb_true_iff; rewrite !Z.leb_le; lia).
    eauto.
Qed.

Lemma weekday_range (x : Date.t) : 0 <= Date.weekday x < 7.
Proof. unfold Date.weekday; apply Z.mod_pos_bound; lia. Qed.

Lemma weekday_plus (x x' : Date.t) (k : Z) :
  Date.toordinal x' = Date.toordinal x + k ->
  Date.weekday x' = (Date.weekday x + k) mod 7.
Proof.
  unfold Date.weekday; intros ->.
  rewrite Zplus_mod_idemp_l; f_equal; lia.
Qed.

(** A week-end day has a next day: the last date, 9999-12-31, is a Friday. *)
Lemma weekend_step (x : Date.t) :
  Date.valid x = true ->
  5 <= Date.weekday x ->
  exists x', Date.add_one_day x = Ok x'
             /\ Date.valid x' = true
             /\ Date.toordinal x' = Date.toordinal x + 1.
Proof.
  intros Hv Hw.
  destruct (add_one_day_total x Hv) as [x' Hx'].
  - intros ->; vm_compute in Hw; apply Hw; reflexivity.
  - exists x'; split; [exact Hx'|].
    destruct (add_one_day_ordinal x x' Hv Hx'); auto.
Qed.

Lemma roll_weekend_stop (fuel : nat) (x : Date.t) :
  Date.weekday x < 5 -> Record_.roll_weekend fuel x = Ok x.
Proof.
  intros Hw; destruct fuel; simpl;
    destruct (Z.leb_spec 5 (Date.weekday x)); (lia || reflexivity).
Qed.

Lemma roll_weekend_step (fuel : nat) (x x' : Date.t) :
  5 <= Date.weekday x ->
  Date.add_one_day x = Ok x' ->
  Record_.roll_weekend (S fuel) x = Record_.roll_weekend fuel x'.
Proof.
  intros Hw Hx'; simpl.
  destruct (Z.leb_spec 5 (Date.weekday x)); [|lia].
  rewrite Hx'; reflexivity.
Qed.

Lemma roll_weekend_rolled (fuel : nat) (x : Date.t) :
  Date.valid x = true ->
  (2 <= fuel)%nat ->
  exists next,
    Record_.roll_weekend fuel x = Ok next
    /\ Date.valid next = true
    /\ Spec.rolled x next.
Proof.
  intros Hv Hfuel.
  pose proof (weekday_range x) as Hr.
  destruct (Z.leb_spec 5 (Date.weekday x)) as [Hw|Hw].
  2:{ exists x; split; [apply roll_weekend_stop; exact Hw|].
      split; [exact Hv|].
      exists 0; unfold Spec.is_weekend.
      split; [lia|]; split; [lia|]; split; [intros; lia | lia]. }
  destruct fuel as [|[|fuel]]; try lia.
  destruct (weekend_step x Hv Hw) as (x1 & Hx1 & Hv1 & Ho1).
  rewrite (roll_weekend_step _ x x1 Hw Hx1).
  pose proof (weekday_plus x x1 1 Ho1) as Hw1.
  destruct (Z.eq_dec (Date.weekday x) 6) as [Hsun|Hsat].
  - (* Sunday: one step *)
    rewrite Hsun in Hw1; change ((6 + 1) mod 7) with 0 in Hw1.
    exists x1; split; [apply roll_weekend_stop; lia|].
    split; [exact Hv1|].
    exists 1; unfold Spec.is_weekend.
    split; [lia|]; split; [exact Ho1|]; split; [|lia].
    intros j Hj; assert (j = 0) by lia; subst j.
    rewrite Z.add_0_r, Z.mod_small; lia.
  - (* Saturday: two steps *)
    assert (Hsat' : Date.weekday x = 5) by lia.
    rewrite Hsat' in Hw1; change ((5 + 1) mod 7) with 6 in Hw1.
    destruct (weekend_step x1 Hv1) as (x2 & Hx2 & Hv2 & Ho2); [lia|].
    rewrite (roll_weekend_step _ x1 x2) by (lia || assumption).
    pose proof (weekday_plus x1 x2 1 Ho2) as Hw2.
    rewrite Hw1 in Hw2; change ((6 + 1) mod 7) with 0 in Hw2.
    exists x2; split; [apply roll_weekend_stop; lia|].
    split; [exact Hv2|].
    exists 2; unfold Spec.is_weekend.
    split; [lia|]; split; [lia|]; split; [|lia].
    intros j Hj; assert (j = 0 \/ j = 1) as [-> | ->] by lia;
      rewrite Hsat'; [change ((5 + 0) mod 7) with 5
                     | change ((5 + 1) mod 7) with 6]; lia.
Qed.

(** *** The ordinal orders the dates *)

Lemma days_before_year_mono (y1 y2 : Z) :
  y1 <= y2 -> Date.days_before_year y1 <= Date.days_before_year y2.
Proof.
  unfold Date.days_before_year; intros H.
  Z.to_euclidean_division_equations; lia.
Qed.

Lemma days_before_month_step (y m1 m2 : Z) :
  1 <= m1 -> m1 < m2 <= 12 ->
  Date.days_before_month y m1 + Date.days_in_month y m1
  <= Date.days_before_month y m2.
Proof.
  intros H1 H2.
  assert (Hm1 : 1 <= m1 <= 12) by lia.
  assert (Hm2 : 1 <= m2 <= 12) by lia.
  unfold Date.days_before_month, Date.days_in_month.
  each_month Hm1; each_month Hm2; try lia;
    destruct (Date.is_leap y); simpl; lia.
Qed.

Lemma day_of_year_bound (y m d : Z) :
  Date.valid_ymd y m d = true ->
  1 <= Date.days_before_month y m + d <= Date.days_before_month y 12 + 31.
Proof.
  intros H; apply valid_ymd_iff in H; destruct H as (_ & Hm & Hd).
  revert Hd; unfold Date.days_before_month, Date.days_in_month.
  each_month Hm; destruct (Date.is_leap y); cbn -[Z.add]; lia.
Qed.

Lemma toordinal_lt (a b : Date.t) :
  Date.valid a = true -> Date.valid b = true ->
  Date.ltb a b = true -> Date.toordinal a < Date.toordinal b.
Proof.
  destruct a as [ya ma da], b as [yb mb db].
  unfold Date.valid, Date.ltb, Date.toordinal; simpl; intros Ha Hb.
  pose proof (day_of_year_bound _ _ _ Ha) as Ba.
  pose proof (day_of_year_bound _ _ _ Hb) as Bb.
  apply valid_ymd_iff in Ha, Hb.
  rewrite !orb_true_iff, !andb_true_iff, !orb_true_iff, !andb_true_iff,
    !Z.ltb_lt, !Z.eqb_eq.
  intros [Hy|[-> [Hm|[-> Hd]]]].
  - pose proof (days_before_year_mono (ya + 1) yb ltac:(lia)) as Hmono.
    rewrite days_before_next_year in Hmono; lia.
  - pose proof (days_before_month_step yb ma mb ltac:(lia) ltac:(lia)); lia.
  - lia.
Qed.

Lemma toordinal_inj (a b : Date.t) :
  Date.valid a = true -> Date.valid b = true ->
  Date.toordinal a = Date.toordinal b -> a = b.
Proof.
  intros Ha Hb Ho.
  destruct (Date.ltb a b) eqn:Eab;
    [pose proof (toordinal_lt a b Ha Hb Eab); lia|].
  destruct (Date.ltb b a) eqn:Eba;
    [pose proof (toordinal_lt b a Hb Ha Eba); lia|].
  destruct a as [ya ma da], b as [yb mb db].
  unfold Date.ltb in Eab, Eba; simpl in Eab, Eba.
  rewrite !orb_false_iff, !andb_false_iff, !orb_false_iff, !andb_false_iff,
    !Z.ltb_ge, !Z.eqb_neq in Eab, Eba.
  assert (ya = yb) by lia; subst.
  assert (ma = mb) by lia; subst.
  assert (da = db) by lia; subst.
  reflexivity.
Qed.

(** The roll has one outcome. *)
Lemma rolled_unique (start next1 next2 : Date.t) :
  Date.valid next1 = true -> Date.valid next2 = true ->
  Spec.rolled start next1 -> Spec.rolled start next2 -> next1 = next2.
Proof.
  intros Hv1 Hv2 (k1 & Hk1 & Ho1 & Hs1 & Hn1) (k2 & Hk2 & Ho2 & Hs2 & Hn2).
  pose proof (weekday_plus start next1 k1 Ho1) as Hw1.
  pose proof (weekday_plus start next2 k2 Ho2) as Hw2.
  apply toordinal_inj; [assumption | assumption |].
  destruct (Z.lt_trichotomy k1 k2) as [Hlt|[Heq|Hgt]].
  - exfalso; apply Hn1; rewrite Hw1; apply Hs2; lia.
  - lia.
  - exfalso; apply Hn2; rewrite Hw2; apply Hs1; lia.
Qed.

Lemma ascii_digit_digit_char (n : Z) : ascii_digit (Date.digit_char n) = true.
Proof.
  unfold Date.digit_char.
  assert (H : 0 <= n mod 10 < 10) by (apply Z.mod_pos_bound; lia).
  apply ascii_digit_iff; lia.
Qed.

Lemma year_digits_pad4 (y : Z) : 1000 <= y -> Date.year_digits y = Date.pad4 y.
Proof.
  intros H; unfold Date.year_digits.
  replace (y <? 10) with false by (symmetry; apply Z.ltb_ge; lia).
  replace (y <? 100) with false by (symmetry; apply Z.ltb_ge; lia).
  replace (y <? 1000) with false by (symmetry; apply Z.ltb_ge; lia).
  reflexivity.
Qed.

Example strftime_year_999 : Date.strftime (Date.mk 999 1 5) = "05.01.999".
Proof. reflexivity. Qed.

(** From the year 1000 on, [strftime] writes two digits, two digits and
    four digits. *)
Lemma strftime_strict (x : Date.t) :
  1000 <= Date.year x ->
  Spec.strict_DD_MM_YYYY ascii_digit (Date.strftime x) = true.
Proof.
  intros Hy.
  unfold Date.strftime; rewrite year_digits_pad4 by exact Hy.
  unfold Date.pad4, Date.pad2, Spec.strict_DD_MM_YYYY; simpl.
  rewrite !ascii_digit_digit_char; reflexivity.
Qed.

(** ** strptime *)

Import Strptime.

(** *** The matcher against the declarative reading of an expression *)

Lemma rmatch_sound (A : Type) (r : re) :
  forall (s : str) (k : str -> str -> option A) (a : A),
    rmatch r s k = Some a ->
    exists t s', s = t ++ s' /\ matches r t /\ k t s' = Some a.
Proof.
  induction r as [p | r1 IH1 r2 IH2 | r1 IH1 r2 IH2]; simpl; intros s k a H.
  - destruct s as [|c rest]; [discriminate|].
    destruct (p c) eqn:Ep; [|discriminate].
    exists [c], rest; repeat split; [constructor; exact Ep | exact H].
  - apply IH1 in H; destruct H as (t1 & s1 & -> & M1 & H).
    apply IH2 in H; destruct H as (t2 & s2 & -> & M2 & H).
    exists (t1 ++ t2), s2; rewrite append_assoc.
    repeat split; [constructor; assumption | exact H].
  - destruct (rmatch r1 s k) as [a1|] eqn:E1.
    + injection H as ->.
      apply IH1 in E1; destruct E1 as (t & s' & -> & M & E1).
      exists t, s'; repeat split; [apply M_AltL; exact M | exact E1].
    + apply IH2 in H; destruct H as (t & s' & -> & M & H).
      exists t, s'; repeat split; [apply M_AltR; exact M | exact H].
Qed.

Lemma rmatch_complete (A : Type) (r : re) (t : str) :
  matches r t ->
  forall (s' : str) (k : str -> str -> option A) (a : A),
    k t s' = Some a -> exists a', rmatch r (t ++ s') k = Some a'.
Proof.
  induction 1 as [p c Hp | r1 r2 t1 t2 _ IH1 _ IH2 | r1 r2 t _ IH | r1 r2 t _
      IH];
    intros s' k a Hk; simpl.
  - rewrite Hp; eauto.
  - rewrite append_assoc.
    destruct (IH2 s' (fun t2' s2 => k (t1 ++ t2') s2) a Hk) as [a2 H2].
    exact (IH1 (t2 ++ s') _ a2 H2).
  - destruct (IH s' k a Hk) as [a' ->]; eauto.
  - destruct (rmatch r1 (t ++ s') k); [eauto|].
    exact (IH s' k a Hk).
Qed.

Ltac inv_matches :=
  repeat match goal with
         | H : matches (Alt _ _) _ |- _ => inversion H; clear H; subst
         | H : matches (Cat _ _) _ |- _ => inversion H; clear H; subst
         | H : matches (Cls _) _ |- _ => inversion H; clear H; subst
         end.

Lemma matches_two (p q : char -> bool) (a b : char) :
  p a = true -> q b = true ->
  matches (Cat (Cls p) (Cls q)) [a; b].
Proof.
  intros Ha Hb.
  exact (M_Cat (Cls p) (Cls q) [a] [b] (M_Cls p a Ha) (M_Cls q b Hb)).
Qed.

(** Tests on a character settled by what is known of its code. *)
Ltac settle_tests :=
  repeat match goal with
         | |- context [ascii_digit ?c] =>
             replace (ascii_digit c) with true by (symmetry; to_codes; lia)
         | |- context [(?c =? ?k)%N] =>
             first
               [ replace (c =? k)%N with true
                   by (symmetry; apply N.eqb_eq; to_codes; lia)
               | replace (c =? k)%N with false
                   by (symmetry; apply N.eqb_neq; to_codes; lia) ]
         | H : isdecimal ?c = true |- context [isdecimal ?c] => rewrite H
         end.

Section StrptimeProperties.

Context `{U : UnicodeData}.

(** *** The three directives *)

Lemma re_d_day_text (ds : str) : matches re_d ds -> Spec.day_text ds = true.
Proof.
  unfold re_d, chr, rng, digit; intros H; inv_matches;
    cbn [Spec.day_text app]; settle_tests; try reflexivity.
  - assert (Hc : (c0 = 49 \/ c0 = 50)%N) by (to_codes; lia).
    destruct Hc as [-> | ->]; destruct (ascii_digit c); reflexivity.
  - destruct (ascii_digit c0); reflexivity.
Qed.

Lemma re_m_month_text (ms : str) : matches re_m ms -> Spec.month_text ms = true.
Proof.
  unfold re_m, chr, rng; intros H; inv_matches;
    cbn [Spec.month_text app]; settle_tests; reflexivity.
Qed.

Lemma re_Y_year_text (ys : str) : matches re_Y ys -> Spec.year_text ys = true.
Proof.
  unfold re_Y, digit; intros H; inv_matches; unfold Spec.year_text; simpl.
  repeat match goal with H : isdecimal _ = true |- _ => rewrite H; clear H end.
  reflexivity.
Qed.

Lemma year_text_re_Y (ys : str) : Spec.year_text ys = true -> matches re_Y ys.
Proof.
  unfold Spec.year_text; rewrite andb_true_iff, Nat.eqb_eq; intros [Hd Hl].
  destruct ys as [|a [|b [|c [|d [|e ys]]]]]; try discriminate.
  simpl in Hd; rewrite !andb_true_iff in Hd.
  destruct Hd as (Ha & Hb & Hc & Hd & _).
  unfold re_Y, digit.
  apply (M_Cat _ _ [a]); [constructor; exact Ha|].
  apply (M_Cat _ _ [b]); [constructor; exact Hb|].
  apply matches_two; assumption.
Qed.

Lemma int_one_digit (a : char) :
  isspace a = false -> int [a] = decimal_value a.
Proof. intros Ha; unfold int; simpl; rewrite Ha; simpl; lia. Qed.

Lemma int_two_digits (a b : char) :
  isspace a = false -> int [a; b] = 10 * decimal_value a + decimal_value b.
Proof. intros Ha; unfold int; simpl; rewrite Ha; simpl; lia. Qed.

Lemma int_blank_digit (b : char) :
  isspace b = false -> int [N_of_ascii " "; b] = decimal_value b.
Proof. intros Hb; unfold int; simpl; rewrite Hb; simpl; lia. Qed.

Lemma day_text_re_d (ds : str) :
  Spec.day_text ds = true -> 1 <= int ds <= 31 -> matches re_d ds.
Proof.
  unfold re_d, chr, rng, digit.
  destruct ds as [|a [|b [|c ds]]]; cbn [Spec.day_text]; try discriminate.
  - intros Ha; rewrite (int_one_digit a (digit_not_space a Ha)).
    rewrite (decimal_value_ascii a Ha); intros Hv.
    do 3 apply M_AltR; apply M_AltL; constructor; to_codes; lia.
  - rewrite !orb_true_iff, !andb_true_iff, !orb_true_iff.
    intros [[[Ha Hb]|[Ha Hb]]|[Ha Hb]].
    + rewrite (int_two_digits a b (digit_not_space a Ha)).
      rewrite (decimal_value_ascii a Ha), (decimal_value_ascii b Hb).
      intros Hv.
      pose proof Ha as Ha'; pose proof Hb as Hb'.
      rewrite ascii_digit_iff in Ha', Hb'.
      destruct (N.eq_dec a 51) as [E3|N3];
        [apply M_AltL; apply matches_two; to_codes; lia|].
      destruct (N.eq_dec a 48) as [E0|N0];
        [do 2 apply M_AltR; apply M_AltL; apply matches_two; to_codes; lia|].
      apply M_AltR, M_AltL; apply matches_two;
        [to_codes; lia | apply ascii_digit_isdecimal; exact Hb].
    + intros _.
      apply M_AltR, M_AltL; apply matches_two; [|exact Hb].
      destruct Ha as [Ha|Ha]; to_codes; lia.
    + apply N.eqb_eq in Ha; subst a.
      rewrite (int_blank_digit b (digit_not_space b Hb)).
      rewrite (decimal_value_ascii b Hb); intros Hv.
      do 4 apply M_AltR; apply matches_two; [reflexivity | to_codes; lia].
Qed.

Lemma month_text_re_m (ms : str) :
  Spec.month_text ms = true -> 1 <= int ms <= 12 -> matches re_m ms.
Proof.
  unfold re_m, chr, rng.
  destruct ms as [|a [|b [|c ms]]]; cbn [Spec.month_text]; try discriminate.
  - intros Ha; rewrite (int_one_digit a (digit_not_space a Ha)).
    rewrite (decimal_value_ascii a Ha); intros Hv.
    do 2 apply M_AltR; constructor; to_codes; lia.
  - rewrite andb_true_iff; intros [Ha Hb].
    rewrite (int_two_digits a b (digit_not_space a Ha)).
    rewrite (decimal_value_ascii a Ha), (decimal_value_ascii b Hb).
    intros Hv.
    pose proof Ha as Ha'; pose proof Hb as Hb'.
    rewrite ascii_digit_iff in Ha', Hb'.
    destruct (N.eq_dec a 49) as [E1|N1];
      [apply M_AltL; apply matches_two; to_codes; lia|].
    apply M_AltR, M_AltL; apply matches_two; to_codes; lia.
Qed.

(** *** Where the fields end *)

Lemma day_text_nodot (ds : str) : Spec.day_text ds = true -> nodot ds = true.
Proof.
  destruct ds as [|a [|b [|c ds]]]; cbn [nodot Spec.day_text]; try discriminate.
  - intros Ha; rewrite (digit_not_dot a Ha); reflexivity.
  - intros H; rewrite !orb_true_iff, !andb_true_iff, !orb_true_iff in H.
    destruct H as [[[Ha Hb]|[Ha Hb]]|[Ha Hb]].
    + rewrite (digit_not_dot a Ha), (digit_not_dot b Hb); reflexivity.
    + rewrite (decimal_not_dot b Hb).
      destruct Ha as [Ha|Ha]; apply N.eqb_eq in Ha; subst a; reflexivity.
    + rewrite (blank_not_dot a Ha), (digit_not_dot b Hb); reflexivity.
Qed.

Lemma month_text_nodot (ms : str) : Spec.month_text ms = true -> nodot ms =
    true.
Proof.
  destruct ms as [|a [|b [|c ms]]]; cbn [nodot Spec.month_text]; try
      discriminate.
  - intros Ha; rewrite (digit_not_dot a Ha); reflexivity.
  - rewrite andb_true_iff; intros [Ha Hb].
    rewrite (digit_not_dot a Ha), (digit_not_dot b Hb); reflexivity.
Qed.

Lemma matches_dot (t : str) : matches dot t -> t = ".".
Proof.
  unfold dot, chr; intros H; inversion H as [p c Hc| | |]; subst.
  apply N.eqb_eq in Hc; subst; reflexivity.
Qed.

Lemma rmatch_dot (A : Type) (rest : str) (k : str -> str -> option A) :
  rmatch dot ("." ++ rest) k = k "." rest.
Proof. reflexivity. Qed.

(** *** [match_format] finds the three fields, and only them *)

Lemma match_format_sound (s ds ms ys rest : str) :
  match_format s = Some (ds, ms, ys, rest) ->
  s = ds ++ "." ++ ms ++ "." ++ ys ++ rest
  /\ matches re_d ds /\ matches re_m ms /\ matches re_Y ys.
Proof.
  unfold match_format; intros H.
  apply rmatch_sound in H; destruct H as (d & s1 & -> & Md & H).
  apply rmatch_sound in H; destruct H as (p1 & s2 & -> & Mp1 & H).
  apply rmatch_sound in H; destruct H as (m & s3 & -> & Mm & H).
  apply rmatch_sound in H; destruct H as (p2 & s4 & -> & Mp2 & H).
  apply rmatch_sound in H; destruct H as (Y & s5 & -> & MY & H).
  injection H as -> -> -> ->.
  apply matches_dot in Mp1, Mp2; subst; auto.
Qed.

Lemma match_format_complete (ds ms ys : str) :
  matches re_d ds -> matches re_m ms -> matches re_Y ys ->
  match_format (ds ++ "." ++ ms ++ "." ++ ys) = Some (ds, ms, ys, []).
Proof.
  intros Md Mm MY.
  assert (Hex : exists r, match_format (ds ++ "." ++ ms ++ "." ++ ys) = Some r).
  { unfold match_format.
    destruct (rmatch_complete _ re_Y ys MY []
                (fun Y s5 => Some (ds, ms, Y, s5)) _ eq_refl) as [r HY].
    rewrite append_nil_r in HY.
    destruct (rmatch_complete _ re_m ms Mm ("." ++ ys)
                (fun m s3 => rmatch dot s3 (fun _ s4 =>
                 rmatch re_Y s4 (fun Y s5 => Some (ds, m, Y, s5)))) r)
      as [r' Hm]; [rewrite rmatch_dot; exact HY|].
    eapply rmatch_complete; [exact Md|]; cbv beta.
    rewrite rmatch_dot; exact Hm. }
  destruct Hex as [[[[ds' ms'] ys'] rest'] H]; rewrite H.
  destruct (match_format_sound _ _ _ _ _ H) as (Hs & Md' & Mm' & MY').
  apply split_at_dot in Hs;
    [|apply day_text_nodot, re_d_day_text; assumption ..].
  destruct Hs as [<- Hs].
  apply split_at_dot in Hs;
    [|apply month_text_nodot, re_m_month_text; assumption ..].
  destruct Hs as [<- Hs].
  rewrite <- (append_nil_r ys) in Hs.
  apply append_same_length in Hs.
  - destruct Hs as [<- <-]; reflexivity.
  - apply re_Y_year_text in MY, MY'; unfold Spec.year_text in *.
    rewrite andb_true_iff, Nat.eqb_eq in MY, MY'.
    destruct MY as [_ ->], MY' as [_ ->]; reflexivity.
Qed.

(** *** [strptime] and [Birthday] *)

Lemma strptime_outcome (s : str) :
  (exists x, strptime s = Ok x) \/ (exists msg, strptime s = Raise (ValueError
      msg)).
Proof.
  unfold strptime.
  destruct (match_format s) as [[[[d m] Y] rest]|]; [|eauto].
  destruct rest; [|eauto].
  destruct (Date.valid_ymd (int Y) (int m) (int d)) eqn:E.
  - left; rewrite (new_valid _ _ _ E); eauto.
  - right; apply new_invalid; exact E.
Qed.

Lemma strptime_date_text (s : str) (x : Date.t) :
  strptime s = Ok x <-> Spec.date_text s x.
Proof.
  split.
  - unfold strptime; intros H.
    destruct (match_format s) as [[[[d m] Y] rest]|] eqn:E; [|discriminate].
    destruct rest; [|discriminate].
    apply match_format_sound in E; destruct E as (-> & Md & Mm & MY).
    apply new_Ok in H; destruct H as [-> Hv].
    exists d, m, Y; rewrite append_nil_r.
    repeat split;
      auto using re_d_day_text, re_m_month_text, re_Y_year_text.
  - intros (ds & ms & ys & -> & Hd & Hm & Hy & -> & Hv).
    unfold Date.valid in Hv; simpl in Hv.
    pose proof Hv as Hv'; apply valid_ymd_iff in Hv'.
    destruct Hv' as (_ & Hmr & Hdr).
    assert (Date.days_in_month (int ys) (int ms) <= 31).
    { unfold Date.days_in_month.
      destruct ((int ms =? 2) && Date.is_leap (int ys))%bool; [lia|].
      each_month Hmr; rewrite Hmr; simpl; lia. }
    unfold strptime.
    rewrite match_format_complete;
      [apply new_valid; exact Hv
      | apply day_text_re_d; [assumption | lia]
      | apply month_text_re_m; assumption
      | apply year_text_re_Y; assumption].
Qed.

(** ** Birthday *)

Lemma birthday_new_strptime (s : str) (b : Birthday.t) :
  Birthday.new s = Ok b <-> exists x, strptime s = Ok x /\ b = Birthday.mk s x.
Proof.
  unfold Birthday.new.
  destruct (strptime_outcome s) as [[x ->]|[msg ->]]; simpl.
  - split; [intros [= <-]; eauto | intros (x' & [= <-] & ->); reflexivity].
  - split; [discriminate | intros (x' & Hx & _); discriminate].
Qed.

End StrptimeProperties.

(** C5, as the code has it: [Birthday] succeeds exactly on the strings
    day.month.year in which the day is one or two digits of ASCII, or 1
    or 2 and a decimal digit of any script, or a blank and one digit of
    ASCII, the month is one or two digits of ASCII and the year four
    decimal digits of any script, and which name a date of the Gregorian
    calendar (year 1 to 9999); on success it stores the string as given
    and the date it names; on every other string it raises [ValueError]
    with ["Invalid date format. Use DD.MM.YYYY"]. *)
Theorem birthday_new_date_text `{U : UnicodeData} (s : str) :
  (forall b, Birthday.new s = Ok b
             <-> Birthday.value b = s /\ Spec.date_text s (Birthday.date b))
  /\ ((forall x, ~ Spec.date_text s x) ->
      Birthday.new s = Raise (ValueError
          "Invalid date format. Use DD.MM.YYYY")).
Proof.
  split.
  - intros b; rewrite birthday_new_strptime; split.
    + intros (x & Hx & ->); simpl; split; [reflexivity|].
      apply strptime_date_text; exact Hx.
    + intros [Hv Ht]; exists (Birthday.date b); split.
      * apply strptime_date_text; exact Ht.
      * destruct b; simpl in *; subst; reflexivity.
  - intros Hno; unfold Birthday.new.
    destruct (strptime_outcome s) as [[x Hx]|[msg ->]]; [|reflexivity].
    exfalso; apply (Hno x), strptime_date_text; exact Hx.
Qed.

Lemma birthday_new_date_text_witness :
  Birthday.new (U := table) "7.11.1988"
  = Ok (Birthday.mk "7.11.1988" (Date.mk 1988 11 7)).
Proof.
  apply (proj1 (birthday_new_date_text (U := table) "7.11.1988")); simpl.
  split; [reflexivity|].
  exists (u "7"), (u "11"), (u "1988"); repeat split.
Defined.

(** A day and a month of one digit are accepted, whatever the digits of
    the other scripts are. *)
Lemma birthday_one_digit `{U : UnicodeData} :
  Birthday.new "1.1.2024" = Ok (Birthday.mk "1.1.2024" (Date.mk 2024 1 1)).
Proof.
  apply birthday_new_strptime; exists (Date.mk 2024 1 1).
  split; [|reflexivity].
  apply strptime_date_text.
  exists (u "1"), (u "1"), (u "2024").
  split; [reflexivity|]; split; [reflexivity|]; split; [reflexivity|].
  assert (Hy : Spec.year_text "2024" = true).
  { unfold Spec.year_text; simpl.
    rewrite !isdecimal_ascii by reflexivity; reflexivity. }
  assert (H1 : int "1" = 1).
  { change (u "1") with [49%N].
    rewrite int_one_digit, decimal_value_ascii by reflexivity; reflexivity. }
  assert (H2024 : int "2024" = 2024).
  { unfold int; simpl.
    rewrite !decimal_value_ascii by reflexivity; reflexivity. }
  rewrite H1, H2024; repeat split; exact Hy.
Qed.

(** The claim C5 as stated fails: a day and a month of one digit are
    accepted, though the string is not of the pattern of two digits, two
    digits and four digits, whatever is taken as a digit. *)
Lemma birthday_new_not_strict :
  Birthday.new (U := table) "1.1.2024"
  = Ok (Birthday.mk "1.1.2024" (Date.mk 2024 1 1))
  /\ forall digit, Spec.strict_DD_MM_YYYY digit "1.1.2024" = false.
Proof. split; [exact (birthday_one_digit (U := table)) | reflexivity]. Qed.

Example birthday_padded :
  Birthday.new (U := table) "05.01.2024"
  = Ok (Birthday.mk "05.01.2024" (Date.mk 2024 1 5)).
Proof. reflexivity. Qed.

Example birthday_blank_day :
  Birthday.new (U := table) " 5.01.2024"
  = Ok (Birthday.mk " 5.01.2024" (Date.mk 2024 1 5)).
Proof. reflexivity. Qed.

Example birthday_feb_30 :
  Birthday.new (U := table) "30.02.2024"
  = Raise (ValueError "Invalid date format. Use DD.MM.YYYY").
Proof. reflexivity. Qed.

Example birthday_wrong_separator :
  Birthday.new (U := table) "05-01-2024"
  = Raise (ValueError "Invalid date format. Use DD.MM.YYYY").
Proof. reflexivity. Qed.

Example birthday_not_numeric :
  Birthday.new (U := table) "ab.01.2024"
  = Raise (ValueError "Invalid date format. Use DD.MM.YYYY").
Proof. reflexivity. Qed.

(** A year in the digits of another script is read; a day in them is
    not, unless it follows 1 or 2. *)
Example birthday_arabic_indic_year :
  Birthday.new (U := table) arabic_indic_year
  = Ok (Birthday.mk arabic_indic_year (Date.mk 2024 1 5)).
Proof. reflexivity. Qed.

Example birthday_arabic_indic_day :
  Birthday.new (U := table) arabic_indic_day
  = Raise (ValueError "Invalid date format. Use DD.MM.YYYY").
Proof. reflexivity. Qed.

Example birthday_mixed_day :
  Birthday.new (U := table) ("1" ++ [1637%N] ++ ".01.2024")
  = Ok (Birthday.mk ("1" ++ [1637%N] ++ ".01.2024") (Date.mk 2024 1 15)).
Proof. reflexivity. Qed.

(** *** Formatting and parsing *)

Section Formatting.

Context `{U : UnicodeData}.

Lemma decimal_value_digit_char (n : Z) :
  decimal_value (Date.digit_char n) = n mod 10.
Proof.
  rewrite decimal_value_ascii by apply ascii_digit_digit_char.
  unfold Date.digit_char.
  assert (H : 0 <= n mod 10 < 10) by (apply Z.mod_pos_bound; lia).
  lia.
Qed.

Lemma int_pad2 (n : Z) : 0 <= n < 100 -> int (Date.pad2 n) = n.
Proof.
  intros Hn; unfold Date.pad2.
  rewrite int_two_digits by apply digit_not_space, ascii_digit_digit_char.
  rewrite !decimal_value_digit_char.
  Z.to_euclidean_division_equations; lia.
Qed.

Lemma int_pad4 (n : Z) : 0 <= n < 10000 -> int (Date.pad4 n) = n.
Proof.
  intros Hn; unfold Date.pad4, Date.pad2, int.
  cbn [lstrip];
    rewrite (digit_not_space _ (ascii_digit_digit_char (n / 1000))).
  cbn [int_digits]; rewrite !decimal_value_digit_char.
  Z.to_euclidean_division_equations; lia.
Qed.

(** What [strftime] writes for a date from the year 1000 on, [strptime]
    reads back. *)
Lemma strptime_strftime (x : Date.t) :
  Date.valid x = true -> 1000 <= Date.year x ->
  strptime (Date.strftime x) = Ok x.
Proof.
  intros Hv Hy1000; apply strptime_date_text.
  pose proof Hv as Hv'; unfold Date.valid in Hv'; apply valid_ymd_iff in Hv'.
  destruct Hv' as (Hy & Hm & Hd).
  assert (Date.days_in_month (Date.year x) (Date.month x) <= 31).
  { unfold Date.days_in_month.
    destruct ((Date.month x =? 2) && Date.is_leap (Date.year x))%bool; [lia|].
    each_month Hm; rewrite Hm; simpl; lia. }
  exists (Date.pad2 (Date.day x)), (Date.pad2 (Date.month x)),
    (Date.pad4 (Date.year x)).
  split; [unfold Date.strftime; rewrite year_digits_pad4 by exact Hy1000;
          reflexivity|].
  unfold Spec.day_text, Spec.month_text, Spec.year_text, Date.pad4, Date.pad2.
  cbn [forallb List.length].
  rewrite !ascii_digit_digit_char.
  rewrite !(ascii_digit_isdecimal _ (ascii_digit_digit_char _)).
  repeat split; [|exact Hv].
  fold (Date.pad2 (Date.day x)); fold (Date.pad2 (Date.month x)).
  fold (Date.pad2 (Date.year x)); fold (Date.pad4 (Date.year x)).
  rewrite int_pad2, int_pad2, int_pad4 by lia.
  destruct x; reflexivity.
Qed.

End Formatting.

(** ** Upcoming birthdays *)

Lemma ltb_false_le (a b : Date.t) :
  Date.valid a = true -> Date.valid b = true ->
  Date.ltb a b = false -> Date.toordinal b <= Date.toordinal a.
Proof.
  intros Ha Hb Hab.
  destruct (Date.ltb b a) eqn:Eba;
    [pose proof (toordinal_lt b a Hb Ha Eba); lia|].
  assert (a = b); [|subst; lia].
  destruct a as [ya ma da], b as [yb mb db].
  unfold Date.ltb in Hab, Eba; simpl in Hab, Eba.
  rewrite !orb_false_iff, !andb_false_iff, !orb_false_iff, !andb_false_iff,
    !Z.ltb_ge, !Z.eqb_neq in Hab, Eba.
  assert (ya = yb) by lia; subst.
  assert (ma = mb) by lia; subst.
  assert (da = db) by lia; subst.
  reflexivity.
Qed.

(** On dates, the comparison of the code is the order of the days. *)
Lemma ltb_before (a b : Date.t) :
  Date.valid a = true -> Date.valid b = true ->
  Date.ltb a b = Spec.before a b.
Proof.
  intros Ha Hb; unfold Spec.before.
  destruct (Date.ltb a b) eqn:E; symmetry.
  - apply Z.ltb_lt, toordinal_lt; assumption.
  - apply Z.ltb_ge, ltb_false_le; assumption.
Qed.

(** The first two steps of [get_upcoming_birthdays] leave a date or
    raise [ValueError], whatever [today] is. *)
Lemma project_outcome (today birthday : Date.t) :
  (exists d,
     (next_birthday <~ Date.replace_year birthday (Date.year today) ;;
      if Date.ltb next_birthday today
      then Date.replace_year next_birthday (Date.year today + 1)
      else Ok next_birthday) = Ok d
     /\ Date.valid d = true)
  \/ (exists msg,
        (next_birthday <~ Date.replace_year birthday (Date.year today) ;;
         if Date.ltb next_birthday today
         then Date.replace_year next_birthday (Date.year today + 1)
         else Ok next_birthday) = Raise (ValueError msg)).
Proof.
  unfold Date.replace_year.
  destruct (Date.valid_ymd (Date.year today) (Date.month birthday)
              (Date.day birthday)) eqn:Ethis.
  - rewrite (new_valid _ _ _ Ethis); simpl.
    destruct (Date.ltb _ today); [|left; eexists; split; [reflexivity|exact
        Ethis]].
    destruct (Date.valid_ymd (Date.year today + 1) (Date.month birthday)
                (Date.day birthday)) eqn:Enext.
    + rewrite (new_valid _ _ _ Enext).
      left; eexists; split; [reflexivity | exact Enext].
    + right; apply new_invalid; exact Enext.
  - destruct (new_invalid _ _ _ Ethis) as [msg ->]; simpl; eauto.
Qed.

Lemma project_Ok (today birthday : Date.t) :
  Date.valid today = true ->
  Spec.projects today birthday ->
  (next_birthday <~ Date.replace_year birthday (Date.year today) ;;
   if Date.ltb next_birthday today
   then Date.replace_year next_birthday (Date.year today + 1)
   else Ok next_birthday)
  = Ok (Spec.projected today birthday).
Proof.
  intros Ht [Hthis Hproj].
  unfold Date.replace_year.
  rewrite (new_valid (Date.year today) (Date.month birthday)
             (Date.day birthday) Hthis); simpl.
  unfold Spec.projected in *; fold (Spec.this_year today birthday).
  rewrite (ltb_before _ _ Hthis Ht).
  destruct (Spec.before (Spec.this_year today birthday) today); [|reflexivity].
  simpl; apply new_valid.
  unfold Spec.this_year in Hproj; simpl in Hproj; exact Hproj.
Qed.

Lemma project_fails (today birthday : Date.t) :
  Date.valid today = true ->
  ~ Spec.projects today birthday ->
  exists msg,
    (next_birthday <~ Date.replace_year birthday (Date.year today) ;;
     if Date.ltb next_birthday today
     then Date.replace_year next_birthday (Date.year today + 1)
     else Ok next_birthday)
    = Raise (ValueError msg).
Proof.
  unfold Spec.projects, Spec.projected, Date.replace_year; intros Ht Hno.
  destruct (Date.valid (Spec.this_year today birthday)) eqn:Ethis.
  - rewrite (new_valid (Date.year today) (Date.month birthday)
               (Date.day birthday) Ethis); simpl.
    fold (Spec.this_year today birthday).
    rewrite (ltb_before _ _ Ethis Ht).
    destruct (Spec.before (Spec.this_year today birthday) today).
    + apply new_invalid.
      destruct (Date.valid_ymd (Date.year today + 1) (Date.month birthday)
                  (Date.day birthday)) eqn:Enext; [|reflexivity].
      exfalso; apply Hno; split; [reflexivity | exact Enext].
    + exfalso; apply Hno; split; [reflexivity | exact Ethis].
  - destruct (new_invalid (Date.year today) (Date.month birthday)
                (Date.day birthday) Ethis) as [msg ->]; simpl; eauto.
Qed.

(** C1, as the code has it.  [today] is a date.  For a record with a
    birthday, [get_upcoming_birthdays] takes the birthday's month and
    day in today's year, or in the following year when that day comes
    before today.  When that date exists (it does not for February 29
    in a year that is not a leap year, the case of C8), the computation
    rolls it forward one day at a time while it falls on Saturday or
    Sunday and returns exactly one entry, the name with the date, when
    the date is 0 to 7 days after today, and no entry otherwise; the
    date is never a week-end day, and from the year 1000 on it is
    written as DD.MM.YYYY, a text that reads back as the date.  Two
    rounds of the loop are enough.  When the date does not exist the
    computation raises [ValueError]. *)
Theorem upcoming_birthday_window `{U : UnicodeData}
        (fuel : nat) (today : Date.t) (self : Record_.t) (b : Birthday.t) :
  Record_.birthday self = Some b ->
  Date.valid today = true ->
  (2 <= fuel)%nat ->
  (Spec.projects today (Birthday.date b) ->
   exists next_birthday,
     Spec.rolled (Spec.projected today (Birthday.date b)) next_birthday
     /\ Date.valid next_birthday = true
     /\ (forall d, Date.valid d = true ->
                   Spec.rolled (Spec.projected today (Birthday.date b)) d ->
                   d = next_birthday)
     /\ Date.weekday next_birthday < 5
     /\ (1000 <= Date.year next_birthday ->
         Spec.strict_DD_MM_YYYY ascii_digit (Date.strftime next_birthday) = true
         /\ strptime (Date.strftime next_birthday) = Ok next_birthday)
     /\ let delta := Date.toordinal next_birthday - Date.toordinal today in
        let entry := Record_.mk_entry (Record_.name self)
                                      (Date.strftime next_birthday) in
        (0 <= delta <= 7 ->
         Record_.get_upcoming_birthdays fuel today self = Ok [entry])
        /\ (~ 0 <= delta <= 7 ->
            Record_.get_upcoming_birthdays fuel today self = Ok []))
  /\ (~ Spec.projects today (Birthday.date b) ->
      exists msg,
        Record_.get_upcoming_birthdays fuel today self = Raise (ValueError
            msg)).
Proof.
  intros Hb Ht Hfuel; split; intros Hproj.
  2:{ destruct (project_fails today (Birthday.date b) Ht Hproj) as [msg Hp].
      exists msg.
      unfold Record_.get_upcoming_birthdays; rewrite Hb.
      unfold rbind in *.
      destruct (Date.replace_year (Birthday.date b) (Date.year today))
        as [nb0|e|];
        [rewrite Hp; reflexivity | injection Hp as ->; reflexivity
        | discriminate]. }
  destruct (roll_weekend_rolled fuel (Spec.projected today (Birthday.date b)))
    as (next & Hroll & Hvalid & Hrolled); [apply Hproj | exact Hfuel |].
  exists next; split; [exact Hrolled|].
  split; [exact Hvalid|].
  split.
  { intros d Hd Hrd.
    exact (rolled_unique _ d next Hd Hvalid Hrd Hrolled). }
  split.
  { destruct Hrolled as (k & _ & _ & _ & Hnw); unfold Spec.is_weekend in Hnw;
      lia. }
  split.
  { intros Hy; split;
      [apply strftime_strict | apply strptime_strftime]; assumption. }
  cbv zeta; unfold Record_.get_upcoming_birthdays; rewrite Hb.
  pose proof (project_Ok today (Birthday.date b) Ht Hproj) as Hp.
  unfold rbind in *.
  destruct (Date.replace_year (Birthday.date b) (Date.year today)) as [nb0| |];
    try discriminate.
  rewrite Hp, Hroll; unfold Date.days_between.
  split; intros Hd.
  - replace ((0 <=? Date.toordinal next - Date.toordinal today)
             && (Date.toordinal next - Date.toordinal today <=? 7))%bool
      with true by (symmetry; apply andb_true_iff; rewrite !Z.leb_le; lia).
    reflexivity.
  - replace ((0 <=? Date.toordinal next - Date.toordinal today)
             && (Date.toordinal next - Date.toordinal today <=? 7))%bool
      with false; [reflexivity|].
    symmetry; apply andb_false_iff; rewrite !Z.leb_gt; lia.
Qed.

Example saturday_rolls_to_monday :
  Record_.get_upcoming_birthdays 2 (Date.mk 2024 1 1) born_jan_6
  = Ok [Record_.mk_entry "Ann" "08.01.2024"].
Proof. reflexivity. Qed.

Example roll_past_the_window :
  Record_.get_upcoming_birthdays 2 (Date.mk 2023 12 31) born_jan_6 = Ok [].
Proof. reflexivity. Qed.

Example birthday_was_yesterday :
  Record_.get_upcoming_birthdays 2 (Date.mk 2024 1 7) born_jan_6 = Ok [].
Proof. reflexivity. Qed.

(** With today Monday 01.01.2024 the birthday of 06.01, a Saturday, is
    announced for Monday 08.01.2024; with today 07.01.2024 it was
    yesterday, moves to 06.01.2025 and is not announced. *)
Lemma upcoming_birthday_window_witness :
  Record_.get_upcoming_birthdays 2 (Date.mk 2024 1 1) born_jan_6
  = Ok [Record_.mk_entry "Ann" "08.01.2024"]
  /\ Record_.get_upcoming_birthdays 2 (Date.mk 2024 1 7) born_jan_6 = Ok [].
Proof.
  split.
  - destruct (upcoming_birthday_window (U := table) 2 (Date.mk 2024 1 1)
                born_jan_6 (Birthday.mk "06.01.1990" (Date.mk 1990 1 6)))
      as [Hyes _]; [reflexivity | reflexivity | lia |].
    destruct Hyes as (next & _ & _ & Huniq & _ & _ & Hin & _);
      [split; reflexivity|].
    assert (Hnext : Date.mk 2024 1 8 = next).
    { apply Huniq; [reflexivity|].
      exists 2; unfold Spec.is_weekend.
      split; [lia|]; split; [reflexivity|]; split.
      - intros j Hj; assert (j = 0 \/ j = 1) as [-> | ->] by lia;
          vm_compute; discriminate.
      - vm_compute; intros H; apply H; reflexivity. }
    subst next; apply Hin; vm_compute; split; discriminate.
  - destruct (upcoming_birthday_window (U := table) 2 (Date.mk 2024 1 7)
                born_jan_6 (Birthday.mk "06.01.1990" (Date.mk 1990 1 6)))
      as [Hyes _]; [reflexivity | reflexivity | lia |].
    destruct Hyes as (next & _ & _ & Huniq & _ & _ & _ & Hout);
      [split; reflexivity|].
    assert (Hnext : Date.mk 2025 1 6 = next).
    { apply Huniq; [reflexivity|].
      exists 0; unfold Spec.is_weekend.
      split; [lia|]; split; [reflexivity|]; split.
      - intros j Hj; lia.
      - vm_compute; intros H; apply H; reflexivity. }
    subst next; apply Hout; vm_compute; intros [_ H]; apply H; reflexivity.
Defined.

(** The claim C1 as stated fails: not every record with a birthday gets
    one entry or none.  On 25.02.2023 the birthday of 29.02 is four days
    ahead at the latest, and the computation returns no list: it
    raises. *)
Lemma upcoming_birthday_not_total :
  Record_.birthday born_feb_29
  = Some (Birthday.mk "29.02.2000" (Date.mk 2000 2 29))
  /\ Record_.get_upcoming_birthdays 2 (Date.mk 2023 2 25) born_feb_29
     = Raise (ValueError "day is out of range for month").
Proof. split; reflexivity. Qed.

(** C8: for a record whose birthday is February 29,
    [get_upcoming_birthdays] raises [ValueError], the error of
    [date.replace], whenever the year it projects onto is not a leap
    year: today's year, or the following year when the birthday in
    today's year falls before today. *)
Theorem feb_29_raises (fuel : nat) (today : Date.t) (self : Record_.t)
        (b : Birthday.t) :
  Record_.birthday self = Some b ->
  Spec.feb_29 (Birthday.date b) ->
  Date.valid today = true ->
  Date.is_leap (Date.year today) = false
  \/ (Date.ltb (Spec.this_year today (Birthday.date b)) today = true
      /\ Date.is_leap (Date.year today + 1) = false) ->
  Record_.get_upcoming_birthdays fuel today self
  = Raise (ValueError "day is out of range for month").
Proof.
  intros Hb [Hm Hd] Hv Hcase.
  unfold Date.valid in Hv; apply valid_ymd_iff in Hv.
  destruct Hv as (Hy & _ & _).
  unfold Record_.get_upcoming_birthdays; rewrite Hb.
  unfold Spec.this_year in Hcase.
  unfold Date.replace_year, Date.new at 1, Date.MINYEAR, Date.MAXYEAR.
  rewrite Hm, Hd in *.
  replace (1 <=? Date.year today) with true by (symmetry; apply Z.leb_le; lia).
  replace (Date.year today <=? 9999) with true
    by (symmetry; apply Z.leb_le; lia).
  simpl negb; cbv iota.
  unfold Date.days_in_month at 1; simpl (2 =? 2).
  destruct (Date.is_leap (Date.year today)) eqn:Eleap; simpl.
  - destruct Hcase as [Hc|[Hlt Hnext]]; [discriminate|].
    rewrite Hlt; simpl.
    unfold Date.new, Date.MINYEAR, Date.MAXYEAR.
    assert (Date.year today <> 9999)
      by (intros E; rewrite E in Eleap; discriminate).
    replace (1 <=? Date.year today + 1) with true
      by (symmetry; apply Z.leb_le; lia).
    replace (Date.year today + 1 <=? 9999) with true
      by (symmetry; apply Z.leb_le; lia).
    simpl; unfold Date.days_in_month; rewrite Hnext; reflexivity.
  - reflexivity.
Qed.

Lemma feb_29_raises_witness :
  Record_.get_upcoming_birthdays 2 (Date.mk 2023 2 20) born_feb_29
  = Raise (ValueError "day is out of range for month")
  /\ Record_.get_upcoming_birthdays 2 (Date.mk 2024 3 1) born_feb_29
     = Raise (ValueError "day is out of range for month").
Proof.
  split.
  - apply (feb_29_raises 2 (Date.mk 2023 2 20) born_feb_29
             (Birthday.mk "29.02.2000" (Date.mk 2000 2 29)));
      [reflexivity | split; reflexivity | reflexivity | left; reflexivity].
  - apply (feb_29_raises 2 (Date.mk 2024 3 1) born_feb_29
             (Birthday.mk "29.02.2000" (Date.mk 2000 2 29)));
      [reflexivity | split; reflexivity | reflexivity
      | right; split; reflexivity].
Defined.

Example feb_29_in_a_leap_year :
  Record_.get_upcoming_birthdays 2 (Date.mk 2024 2 25) born_feb_29
  = Ok [Record_.mk_entry "Leo" "29.02.2024"].
Proof. reflexivity. Qed.
(** ** Command handlers *)

(** C7: for a contact of the book that has a birthday, [add_birthday]
    called with the name and any date argument returns
    ["Birthday already exists for <name>."] and leaves the book, and so
    the contact's birthday string and date, as they were.  The guard is
    the handler's: [Record.add_birthday] itself overwrites. *)
Theorem add_birthday_refuses_overwrite `{U : UnicodeData}
        (book : AddressBook.t) (name date_arg : str)
        (record : Record_.t) (b : Birthday.t) :
  AddressBook.find_record book name = Some record ->
  Record_.birthday record = Some b ->
  add_birthday [name; date_arg] book
  = (Ok ("Birthday already exists for " ++ name ++ "."), book)
  /\ (forall b', Birthday.new date_arg = Ok b' ->
        Record_.add_birthday record date_arg
        = Ok (Record_.set_birthday record (Some b'))).
Proof.
  intros Hfind Hb; split.
  - unfold add_birthday, input_error, bind, call_find_record; simpl.
    rewrite Hfind, Hb; reflexivity.
  - intros b' Hnew; unfold Record_.add_birthday; rewrite Hnew; reflexivity.
Qed.

Lemma add_birthday_refuses_overwrite_witness :
  add_birthday (U := table) [u "Alice"; u "06.02.1990"] [(u "Alice", alice)]
  = (Ok (u "Birthday already exists for Alice."), [(u "Alice", alice)])
  /\ Record_.add_birthday (U := table) alice "06.02.1990"
     = Ok (Record_.mk "Alice" [Phone.mk "0501234567"]
             (Some (Birthday.mk "06.02.1990" (Date.mk 1990 2 6)))).
Proof.
  destruct (add_birthday_refuses_overwrite (U := table)
              [(u "Alice", alice)] "Alice" "06.02.1990" alice
              (Birthday.mk "05.01.2024" (Date.mk 2024 1 5))
              eq_refl eq_refl) as [Hcmd Hrec].
  split; [exact Hcmd|].
  exact (Hrec (Birthday.mk "06.02.1990" (Date.mk 1990 2 6)) eq_refl).
Defined.

(** [str.split()] never yields an empty token. *)
Lemma split_from_nonempty (s : str) :
  forall tok, (forall t, tok = Some t -> t <> []) ->
              Forall (fun t => t <> []) (split_from tok s).
Proof.
  induction s as [|c s IH]; simpl; intros tok Htok.
  - destruct tok as [t|]; repeat constructor; auto.
  - destruct (isspace c).
    + destruct tok as [t|]; [constructor; auto|]; apply IH; discriminate.
    + apply IH; intros t [= <-].
      destruct tok as [t|]; [destruct t|]; discriminate.
Qed.

Lemma parse_input_nonempty (user_input : str) :
  Forall (fun t => t <> []) (parse_input user_input).
Proof.
  destruct user_input; [constructor|].
  apply split_from_nonempty; discriminate.
Qed.

(** C10: [add_contact] called with a name that is not in the book and a
    phone that [Phone] refuses returns the error string, and the book
    has changed all the same: a record of that name with no phone and no
    birthday has been appended.  The handler validates only a phone that
    is not the empty string, which the tokens of a command line never
    are: the same holds of the command loop on every line
    [add <name> <phone> ...]. *)
Theorem add_contact_not_atomic `{U : UnicodeData}
        (book : AddressBook.t) (name phone : str) (rest : list str) :
  AddressBook.find_record book name = None ->
  (forall p, Phone.new phone <> Ok p) ->
  let book' := (book ++ [(name, Record_.new name)]) in
  (phone <> [] ->
   add_contact (name :: phone :: rest) book = (Ok phone_error, book'))
  /\ (forall fuel today line,
        parse_input line = u "add" :: name :: phone :: rest ->
        main_step fuel today book line = Continue book' phone_error)
  /\ AddressBook.find_record book' name = Some (Record_.mk name [] None).
Proof.
  intros Hfind Hnew book'.
  assert (Hadd : phone <> [] ->
                 add_contact (name :: phone :: rest) book
                 = (Ok phone_error, book')).
  { intros Hphone.
    unfold add_contact, input_error, bind, call_find_record, call_add_record,
        mutate.
    replace (len (name :: phone :: rest) <? 2) with false
      by (symmetry; apply Z.ltb_ge; unfold len; simpl List.length; lia).
    rewrite Hfind; simpl.
    destruct phone as [|c phone']; [congruence|].
    unfold Record_.add_phone, Phone.new in *; cbv zeta in *.
    destruct (strlen (Phone.sanitize (c :: phone')) =? 10).
    - exfalso; eapply Hnew; reflexivity.
    - simpl. unfold AddressBook.add_record; simpl.
      rewrite set_absent by exact Hfind; reflexivity. }
  split; [exact Hadd|]; split.
  - intros fuel today line Hline.
    unfold main_step; rewrite Hline; simpl.
    rewrite Hadd; [reflexivity|].
    pose proof (parse_input_nonempty line) as Hne; rewrite Hline in Hne.
    inversion Hne as [|? ? _ Hne1]; inversion Hne1 as [|? ? _ Hne2];
      inversion Hne2; assumption.
  - unfold book', AddressBook.find_record.
    rewrite <- (set_absent name (Record_.new name) book Hfind).
    apply get_set_same.
Qed.

Lemma add_contact_not_atomic_witness :
  add_contact (U := table) [u "Bob"; u "12"] []
  = (Ok phone_error, [(u "Bob", Record_.mk "Bob" [] None)])
  /\ main_step (U := table) 2 (Date.mk 2024 1 1) [] "add Bob 12"
     = Continue [(u "Bob", Record_.mk "Bob" [] None)] phone_error.
Proof.
  destruct (add_contact_not_atomic (U := table) [] "Bob" "12" [])
    as (Hh & Hm & _).
  - reflexivity.
  - intros p; vm_compute; discriminate.
  - split; [apply Hh; discriminate | apply Hm; reflexivity].
Defined.

(** ** The command loop *)

(** C2: an empty line is tokenized to the empty list, is answered with
    ["Invalid command."] and the loop goes on.  In the code the empty
    list does not reach the dispatch: unpacking it into a command and
    its arguments raises [ValueError] in [main], outside every handler,
    and the loop ends there. *)
Theorem empty_line_is_uncaught `{U : UnicodeData} (fuel : nat) (today : Date.t)
        (book : AddressBook.t) (rest : list (Date.t * str)) :
  parse_input "" = []
  /\ main_step fuel today book "" = Uncaught not_enough_values book
  /\ main_loop fuel book ((today, u "") :: rest)
     = ([], Some (Uncaught not_enough_values book)).
Proof. repeat split. Qed.

Example blank_line_is_uncaught :
  main_step (U := table) 2 (Date.mk 2024 1 1) [] "   " = Uncaught
      not_enough_values [].
Proof. reflexivity. Qed.

Example unknown_command_continues :
  main_step (U := table) 2 (Date.mk 2024 1 1) [] "foo" = Continue []
      "Invalid command.".
Proof. reflexivity. Qed.

Example end_to_end :
  fst (main_loop (U := table) 2 []
         [(Date.mk 2024 1 1, u "add Alice 0501234567");
          (Date.mk 2024 1 1, u "add_birthday Alice 05.01.2024");
          (Date.mk 2024 1 1, u "show_birthday Alice")])
  = [u "Contact added."; u "Birthday added successfully for Alice.";
     u "Alice's birthday: 05.01.2024"].
Proof. reflexivity. Qed.

(** *** The book stays a dictionary *)

Lemma preserves_ret (A : Type) (a : A) : preserves_wf (ret a).
Proof. intros book H; exact H. Qed.

Lemma preserves_raise (A : Type) (e : exn) : preserves_wf (@raise A e).
Proof. intros book H; exact H. Qed.

Lemma preserves_pure (A : Type) (f : AddressBook.t -> result A) :
  preserves_wf (fun book => (f book, book)).
Proof. intros book H; exact H. Qed.

Lemma preserves_bind (A B : Type) (m : M A) (f : A -> M B) :
  preserves_wf m -> (forall a, preserves_wf (f a)) -> preserves_wf (bind m f).
Proof.
  intros Hm Hf book H; unfold bind.
  specialize (Hm book H).
  destruct (m book) as [[a|e|] book']; simpl in *; [apply Hf|..]; assumption.
Qed.

Lemma preserves_catch (A : Type) (m : M A) (h : str -> M A) :
  preserves_wf m -> (forall msg, preserves_wf (h msg)) ->
  preserves_wf (catch_ValueError m h).
Proof.
  intros Hm Hh book H; unfold catch_ValueError.
  specialize (Hm book H).
  destruct (m book) as [[a|[msg| | |]|] book']; simpl in *;
    [|apply Hh|..]; assumption.
Qed.

Lemma preserves_input_error (func : M str) :
  preserves_wf func -> preserves_wf (input_error func).
Proof.
  intros Hm book H; unfold input_error.
  specialize (Hm book H).
  destruct (func book) as [[a|[msg| | |]|] book']; simpl in *; assumption.
Qed.

Lemma preserves_find_record (name : str) : preserves_wf (call_find_record name).
Proof. intros book H; exact H. Qed.

Lemma preserves_add_record (record : Record_.t) :
  preserves_wf (call_add_record record).
Proof. intros book H; apply wf_set; exact H. Qed.

Lemma preserves_mutate (name : str) (r : result Record_.t) :
  preserves_wf (mutate name r).
Proof.
  intros book H; unfold mutate; destruct r; simpl;
    [apply wf_set|..]; exact H.
Qed.

Ltac wf_handler :=
  repeat (first
    [ apply preserves_input_error
    | apply preserves_bind; [|intros]
    | apply preserves_catch; [|intros]
    | apply preserves_ret | apply preserves_raise
    | apply preserves_find_record | apply preserves_add_record
    | apply preserves_mutate | apply preserves_pure
    | match goal with
      | |- preserves_wf (if ?c then _ else _) => destruct c
      | |- preserves_wf (match ?x with _ => _ end) => destruct x
      | |- preserves_wf (let '(_, _) := ?x in _) => destruct x
      end ]).

Lemma add_contact_wf `{U : UnicodeData}
      (args : list str) : preserves_wf (add_contact args).
Proof. unfold add_contact; wf_handler. Qed.

Lemma change_contact_wf `{U : UnicodeData}
      (args : list str) : preserves_wf (change_contact args).
Proof. unfold change_contact; wf_handler. Qed.

Lemma add_birthday_wf `{U : UnicodeData}
      (args : list str) : preserves_wf (add_birthday args).
Proof. unfold add_birthday; wf_handler. Qed.

Lemma show_birthday_wf (args : list str) : preserves_wf (show_birthday args).
Proof. unfold show_birthday; wf_handler. Qed.

Lemma show_phones_wf (args : list str) : preserves_wf (show_phones args).
Proof. unfold show_phones; wf_handler. Qed.

Lemma show_all_wf : preserves_wf show_all.
Proof. unfold show_all; wf_handler. Qed.

Lemma birthdays_wf (fuel : nat) (today : Date.t) (args : list str) :
  preserves_wf (birthdays fuel today args).
Proof. unfold birthdays; wf_handler. Qed.

Create HintDb wf.

#[local] Hint Resolve add_contact_wf change_contact_wf show_phones_wf
  show_all_wf add_birthday_wf show_birthday_wf birthdays_wf : wf.

Lemma print_result_wf (m : M str) (book : AddressBook.t) :
  preserves_wf m -> AddressBook.wf book ->
  AddressBook.wf (outcome_book (print_result (m book))).
Proof.
  intros Hm H; specialize (Hm book H).
  destruct (m book) as [[a|e|] book']; exact Hm.
Qed.

(** Every turn of the loop leaves a dictionary a dictionary. *)
Lemma main_step_wf `{U : UnicodeData}
      (fuel : nat) (today : Date.t) (book : AddressBook.t)
      (user_input : str) :
  AddressBook.wf book ->
  AddressBook.wf (outcome_book (main_step fuel today book user_input)).
Proof.
  intros H; unfold main_step.
  destruct (parse_input user_input) as [|command args]; [exact H|].
  repeat match goal with
         | |- context [if ?c then _ else _] => destruct c
         end;
    try exact H;
    apply print_result_wf;
    auto with wf.
Qed.

(** * Further properties of the code *)

(** ** Phone: the stored value *)

Lemma join_if_forall (p : char -> bool) (s : str) :
  forall_chars p (join_if p s) = true.
Proof.
  induction s as [|c s IH]; simpl; [reflexivity|].
  destruct (p c) eqn:E; simpl; [rewrite E|]; exact IH.
Qed.

Lemma join_if_id (p : char -> bool) (s : str) :
  forall_chars p s = true -> join_if p s = s.
Proof.
  induction s as [|c s IH]; simpl; [reflexivity|].
  rewrite andb_true_iff; intros [-> Hs]; rewrite IH by exact Hs; reflexivity.
Qed.

Lemma phone_new_Ok `{U : UnicodeData} (raw : str) (p : Phone.t) :
  Phone.new raw = Ok p ->
  p = Phone.mk (Phone.sanitize raw)
  /\ List.length (Phone.sanitize raw) = 10%nat.
Proof.
  unfold Phone.new; cbv zeta; rewrite strlen_10.
  destruct (Nat.eqb_spec (List.length (Phone.sanitize raw)) 10) as [E|E];
    [|discriminate].
  intros [= <-]; auto.
Qed.

Lemma phone_new_outcome `{U : UnicodeData} (raw : str) :
  (exists p, Phone.new raw = Ok p)
  \/ Phone.new raw = Raise (ValueError "Phone number must contain 10 digits.").
Proof.
  unfold Phone.new; cbv zeta.
  destruct (strlen (Phone.sanitize raw) =? 10); eauto.
Qed.

Lemma phone_new_ok `{U : UnicodeData} (raw : str) (p : Phone.t) :
  Phone.new raw = Ok p -> phone_ok p.
Proof.
  intros H; apply phone_new_Ok in H; destruct H as [-> Hl].
  split; [exact Hl | apply join_if_forall].
Qed.

Lemma phone_ok_new `{U : UnicodeData}
      (p : Phone.t) : phone_ok p -> Phone.new (Phone.value p) = Ok p.
Proof.
  intros [Hl Hc]; unfold Phone.new, Phone.sanitize; cbv zeta.
  rewrite (join_if_id _ _ Hc), strlen_10, Hl; destruct p; reflexivity.
Qed.

(** X1: a phone that [Phone] accepts is stored as ten characters, each a
    digit or one of + - ( ), and [Phone] accepts the stored value again
    unchanged: the stored form is a fixed point of the constructor. *)
Theorem phone_value_canonical `{U : UnicodeData} (raw : str) (p : Phone.t) :
  Phone.new raw = Ok p ->
  List.length (Phone.value p) = 10%nat
  /\ forall_chars Phone.keep (Phone.value p) = true
  /\ Phone.new (Phone.value p) = Ok p.
Proof.
  intros H; pose proof (phone_new_ok raw p H) as Hok.
  destruct Hok as [Hl Hc]; repeat split; try assumption.
  apply phone_ok_new; split; assumption.
Qed.

Lemma phone_value_canonical_witness :
  Phone.new (U := table) "(050)123-4" = Ok (Phone.mk "(050)123-4").
Proof.
  exact (proj2 (proj2 (phone_value_canonical (U := table) "(050) 123-4x"
                         (Phone.mk "(050)123-4") eq_refl))).
Defined.

(** ** Record: looking a phone up *)

Lemma find_loop_Some (v : str) (ps : list Phone.t) (p : Phone.t) :
  Record_.find_loop v ps = Some p <->
  exists before after,
    ps = (before ++ p :: after)
    /\ Forall (fun q => Phone.value q <> v) before
    /\ Phone.value p = v.
Proof.
  split.
  - revert p; induction ps as [|q ps IH]; simpl; intros p; [discriminate|].
    destruct (str_eqb_spec (Phone.value q) v) as [E|E].
    + intros [= <-]; exists [], ps; auto.
    + intros H; destruct (IH p H) as (before & after & -> & Hb & Hp).
      exists (q :: before), after; auto.
  - intros (before & after & -> & Hb & Hp).
    induction Hb as [|q qs Hq _ IH]; simpl.
    + rewrite Hp, str_eqb_refl; reflexivity.
    + apply str_eqb_neq in Hq; rewrite Hq; exact IH.
Qed.

Lemma find_loop_None (v : str) (ps : list Phone.t) :
  Record_.find_loop v ps = None <-> Forall (fun q => Phone.value q <> v) ps.
Proof.
  induction ps as [|q ps IH]; simpl.
  - split; [constructor | reflexivity].
  - destruct (str_eqb_spec (Phone.value q) v) as [E|E].
    + split; [discriminate | intros H; inversion H; contradiction].
    + rewrite IH; split; [intros H; constructor; assumption
                         | intros H; inversion H; assumption].
Qed.

(** X2: [find_phone] returns a phone exactly when it is the first phone
    of the record whose value is the string asked for, and returns
    nothing exactly when no phone of the record has that value. *)
Theorem find_phone_first_match (self : Record_.t) (v : str) :
  (forall p, Record_.find_phone self v = Some p <->
     exists before after,
       Record_.phones self = (before ++ p :: after)
       /\ Forall (fun q => Phone.value q <> v) before
       /\ Phone.value p = v)
  /\ (Record_.find_phone self v = None <->
      Forall (fun q => Phone.value q <> v) (Record_.phones self)).
Proof.
  unfold Record_.find_phone; split;
    [intros p; apply find_loop_Some | apply find_loop_None].
Qed.

Lemma find_phone_first_match_witness :
  Record_.find_phone three_phones "2222222222" = Some (Phone.mk "2222222222")
  /\ Record_.find_phone three_phones "050" = None.
Proof.
  split.
  - apply (proj1 (find_phone_first_match three_phones "2222222222")).
    exists [Phone.mk "1111111111"],
      [Phone.mk "3333333333"; Phone.mk "2222222222"].
    split; [reflexivity|]; split; [|reflexivity].
    repeat constructor; discriminate.
  - apply (proj2 (find_phone_first_match three_phones "050")).
    repeat constructor; discriminate.
Defined.

(** ** Record: adding, removing and editing phones *)

Lemma add_phone_Ok `{U : UnicodeData} (self self' : Record_.t) (raw : str) :
  Record_.add_phone self raw = Ok self' <->
  exists p, Phone.new raw = Ok p
            /\ self' = Record_.set_phones self (Record_.phones self ++ [p]).
Proof.
  unfold Record_.add_phone.
  destruct (phone_new_outcome raw) as [[p ->]| ->]; simpl.
  - split; [intros [= <-]; eauto | intros (q & [= <-] & ->); reflexivity].
  - split; [discriminate | intros (q & Hq & _); discriminate].
Qed.

Lemma add_phone_outcome `{U : UnicodeData} (self : Record_.t) (raw : str) :
  (exists self', Record_.add_phone self raw = Ok self')
  \/ Record_.add_phone self raw
     = Raise (ValueError
                "Error adding phone: Phone number must contain 10 digits.").
Proof.
  unfold Record_.add_phone.
  destruct (phone_new_outcome raw) as [[p ->]| ->]; simpl; eauto.
Qed.

Lemma find_loop_app_last (v : str) (ps : list Phone.t) (p : Phone.t) :
  Phone.value p = v ->
  exists q, Record_.find_loop v (ps ++ [p]) = Some q /\ Phone.value q = v.
Proof.
  intros Hp; induction ps as [|q ps IH]; simpl.
  - rewrite Hp, str_eqb_refl; eauto.
  - destruct (str_eqb_spec (Phone.value q) v); eauto.
Qed.

Lemma phone_eta (p q : Phone.t) : Phone.value p = Phone.value q -> p = q.
Proof. destruct p, q; simpl; intros ->; reflexivity. Qed.

(** X3: when [add_phone] succeeds it appends one phone, whose value is the
    raw string with the characters [Phone] drops removed, at the end of
    the list, leaves name and birthday as they were, and [find_phone]
    of that value then finds a phone of that value. *)
Theorem add_phone_then_find `{U : UnicodeData}
        (self self' : Record_.t) (raw : str) :
  Record_.add_phone self raw = Ok self' ->
  Record_.phones self'
  = (Record_.phones self ++ [Phone.mk (Phone.sanitize raw)])
  /\ Record_.name self' = Record_.name self
  /\ Record_.birthday self' = Record_.birthday self
  /\ Record_.find_phone self' (Phone.sanitize raw)
     = Some (Phone.mk (Phone.sanitize raw)).
Proof.
  intros H; apply add_phone_Ok in H; destruct H as (p & Hp & ->).
  apply phone_new_Ok in Hp; destruct Hp as [-> _]; simpl.
  repeat split.
  unfold Record_.find_phone; simpl.
  destruct (find_loop_app_last (Phone.sanitize raw) (Record_.phones self)
              (Phone.mk (Phone.sanitize raw)) eq_refl) as (q & -> & Hq).
  f_equal; apply phone_eta; exact Hq.
Qed.

Lemma add_phone_then_find_witness :
  Record_.find_phone
    (Record_.mk "Ann" [Phone.mk "0501234567"] None) "0501234567"
  = Some (Phone.mk "0501234567").
Proof.
  exact (proj2 (proj2 (proj2
    (add_phone_then_find (U := table) (Record_.new "Ann")
       (Record_.mk "Ann" [Phone.mk "0501234567"] None)
       "050 123 45 67" eq_refl)))).
Defined.

(** Looking a phone up by the string it was typed as fails when that
    string had characters [Phone] drops. *)
Example find_phone_by_raw :
  Record_.add_phone (U := table) (Record_.new "Ann") "050 123 45 67"
  = Ok (Record_.mk "Ann" [Phone.mk "0501234567"] None)
  /\ Record_.find_phone (Record_.mk "Ann" [Phone.mk "0501234567"] None)
       "050 123 45 67" = None.
Proof. split; reflexivity. Qed.

Lemma remove_loop_app_last (v : str) (ps : list Phone.t) (p : Phone.t) :
  Forall (fun q => Phone.value q <> v) ps ->
  Phone.value p = v ->
  Record_.remove_loop v (ps ++ [p]) = Some ps.
Proof.
  intros Hps Hp.
  rewrite (remove_loop_first v p [] Hp ps Hps), app_nil_r; reflexivity.
Qed.

(** X4: when the record has no phone of that value, adding a phone and
    then removing its stored value gives the record back as it was. *)
Theorem add_then_remove_phone `{U : UnicodeData}
        (self self' : Record_.t) (raw : str) :
  Record_.find_phone self (Phone.sanitize raw) = None ->
  Record_.add_phone self raw = Ok self' ->
  Record_.remove_phone self' (Phone.sanitize raw) = Ok self.
Proof.
  intros Hnone H; apply add_phone_Ok in H; destruct H as (p & Hp & ->).
  apply phone_new_Ok in Hp; destruct Hp as [-> _].
  apply find_loop_None in Hnone.
  unfold Record_.remove_phone; simpl.
  rewrite (remove_loop_app_last (Phone.sanitize raw) (Record_.phones self)
             (Phone.mk (Phone.sanitize raw)) Hnone eq_refl).
  destruct self; reflexivity.
Qed.

Lemma add_then_remove_phone_witness :
  Record_.remove_phone
    (Record_.mk "Ann" [Phone.mk "1111111111"; Phone.mk "0501234567"] None)
    "0501234567"
  = Ok (Record_.mk "Ann" [Phone.mk "1111111111"] None).
Proof.
  exact (add_then_remove_phone (U := table)
           (Record_.mk "Ann" [Phone.mk "1111111111"] None)
           (Record_.mk "Ann"
              [Phone.mk "1111111111"; Phone.mk "0501234567"] None)
           "050 123 45 67" eq_refl eq_refl).
Defined.

(** When the value is already stored, it is the older phone that goes. *)
Example add_then_remove_duplicate :
  Record_.add_phone (U := table) (Record_.mk "Ann" [Phone.mk "0501234567";
                                       Phone.mk "2222222222"] None)
                    "0501234567"
  = Ok (Record_.mk "Ann" [Phone.mk "0501234567"; Phone.mk "2222222222";
                          Phone.mk "0501234567"] None)
  /\ Record_.remove_phone
       (Record_.mk "Ann" [Phone.mk "0501234567"; Phone.mk "2222222222";
                          Phone.mk "0501234567"] None) "0501234567"
     = Ok (Record_.mk "Ann" [Phone.mk "2222222222"; Phone.mk "0501234567"]
         None).
Proof. split; reflexivity. Qed.

Lemma remove_loop_none (v : str) (ps : list Phone.t) :
  Forall (fun q => Phone.value q <> v) ps -> Record_.remove_loop v ps = None.
Proof.
  induction 1 as [|q qs Hq _ IH]; simpl; [reflexivity|].
  apply str_eqb_neq in Hq; rewrite Hq, IH; reflexivity.
Qed.

Lemma edit_loop_none `{U : UnicodeData} (v new : str) (ps : list Phone.t) :
  Forall (fun q => Phone.value q <> v) ps ->
  Record_.edit_loop v new ps
  = Raise (ValueError "Phone number not found in record.").
Proof.
  induction 1 as [|q qs Hq _ IH]; simpl; [reflexivity|].
  apply str_eqb_neq in Hq; rewrite Hq, IH; reflexivity.
Qed.

(** X5: when no phone of the record has the value, [remove_phone] and
    [edit_phone] both raise ["Phone number not found in record."], and
    [edit_phone] does so whatever the new phone is: the new phone is
    validated only once the old one has been found. *)
Theorem phone_not_found `{U : UnicodeData} (self : Record_.t) (v : str) :
  Record_.find_phone self v = None ->
  Record_.remove_phone self v
  = Raise (ValueError "Phone number not found in record.")
  /\ forall new, Record_.edit_phone self v new
                 = Raise (ValueError "Phone number not found in record.").
Proof.
  intros H; apply find_loop_None in H.
  unfold Record_.remove_phone, Record_.edit_phone; split.
  - rewrite (remove_loop_none v _ H); reflexivity.
  - intros new; rewrite (edit_loop_none v new _ H); reflexivity.
Qed.

Lemma phone_not_found_witness :
  Record_.remove_phone three_phones "4444444444"
  = Raise (ValueError "Phone number not found in record.")
  /\ Record_.edit_phone (U := table) three_phones "4444444444" "not a phone"
     = Raise (ValueError "Phone number not found in record.").
Proof.
  destruct (phone_not_found (U := table) three_phones "4444444444" eq_refl)
    as [Hr He].
  split; [exact Hr | exact (He "not a phone")].
Defined.

(** ** Record: what every method keeps *)

Lemma record_new_ok `{U : UnicodeData}
      (name : str) : record_ok (Record_.new name).
Proof. split; [constructor | discriminate]. Qed.

Lemma remove_loop_Forall (P : Phone.t -> Prop) (v : str)
      (ps ps' : list Phone.t) :
  Record_.remove_loop v ps = Some ps' -> Forall P ps -> Forall P ps'.
Proof.
  revert ps'; induction ps as [|q ps IH]; simpl; intros ps'; [discriminate|].
  intros H HP; inversion HP as [|? ? Hq Hps]; subst.
  destruct (str_eqb (Phone.value q) v); [injection H as <-; exact Hps|].
  destruct (Record_.remove_loop v ps) as [rest|]; [|discriminate].
  injection H as <-; constructor; [exact Hq | apply IH; [reflexivity | exact
      Hps]].
Qed.

Lemma edit_loop_Forall `{U : UnicodeData}
      (v new : str) (ps ps' : list Phone.t) :
  Record_.edit_loop v new ps = Ok ps' ->
  Forall phone_ok ps ->
  Forall phone_ok ps' /\ List.length ps' = List.length ps.
Proof.
  revert ps'; induction ps as [|q ps IH]; simpl; intros ps'; [discriminate|].
  intros H HP; inversion HP as [|? ? Hq Hps]; subst.
  destruct (str_eqb (Phone.value q) v).
  - destruct (phone_new_outcome new) as [[np Hnp]|Hnp]; rewrite Hnp in H;
      simpl in H; [|discriminate].
    injection H as <-; split; [|reflexivity].
    constructor; [|exact Hps].
    pose proof (phone_new_ok new np Hnp) as Hok; destruct np; exact Hok.
  - destruct (Record_.edit_loop v new ps) as [rest| |]; simpl in H;
      try discriminate.
    injection H as <-; destruct (IH rest eq_refl Hps) as [Hr Hl].
    split; [constructor; assumption | simpl; rewrite Hl; reflexivity].
Qed.

Lemma birthday_new_ok `{U : UnicodeData} (s : str) (b : Birthday.t) :
  Birthday.new s = Ok b -> birthday_ok b /\ Birthday.value b = s.
Proof.
  intros H; apply birthday_new_strptime in H; destruct H as (x & Hx & ->).
  split; [exact Hx | reflexivity].
Qed.

Lemma add_birthday_Ok `{U : UnicodeData} (self self' : Record_.t) (s : str) :
  Record_.add_birthday self s = Ok self' ->
  exists b, Birthday.new s = Ok b
            /\ self' = Record_.set_birthday self (Some b).
Proof.
  unfold Record_.add_birthday.
  destruct (Birthday.new s) as [b|[msg| | |]|]; simpl; try discriminate.
  intros [= <-]; eauto.
Qed.

(** X6: a record whose phones are all of the stored form and whose
    birthday date is what its birthday string parses to stays so under
    [add_phone], [remove_phone], [edit_phone] and [add_birthday]
    whenever they succeed; none of them changes the name, and
    [edit_phone] keeps the number of phones. *)
Theorem record_ok_kept `{U : UnicodeData} (self : Record_.t) :
  record_ok self ->
  (forall raw self', Record_.add_phone self raw = Ok self' ->
     record_ok self' /\ Record_.name self' = Record_.name self)
  /\ (forall v self', Record_.remove_phone self v = Ok self' ->
        record_ok self' /\ Record_.name self' = Record_.name self)
  /\ (forall v new self', Record_.edit_phone self v new = Ok self' ->
        record_ok self' /\ Record_.name self' = Record_.name self
        /\ List.length (Record_.phones self')
           = List.length (Record_.phones self))
  /\ (forall s self', Record_.add_birthday self s = Ok self' ->
        record_ok self' /\ Record_.name self' = Record_.name self).
Proof.
  intros [Hps Hb]; split; [|split; [|split]].
  - intros raw self' H; apply add_phone_Ok in H; destruct H as (p & Hp & ->).
    split; [|reflexivity]; split; [|exact Hb]; simpl.
    apply Forall_app; split; [exact Hps|].
    constructor; [exact (phone_new_ok raw p Hp) | constructor].
  - intros v self'; unfold Record_.remove_phone.
    destruct (Record_.remove_loop v (Record_.phones self)) as [ps|] eqn:E;
      [|discriminate].
    intros [= <-]; split; [|reflexivity]; split; [|exact Hb]; simpl.
    exact (remove_loop_Forall phone_ok v _ ps E Hps).
  - intros v new self'; unfold Record_.edit_phone.
    destruct (Record_.edit_loop v new (Record_.phones self)) as [ps| |] eqn:E;
      simpl; try discriminate.
    intros [= <-]; destruct (edit_loop_Forall v new _ ps E Hps) as [Hok Hl].
    split; [split; [exact Hok | exact Hb]|]; split; [reflexivity | exact Hl].
  - intros s self' H; apply add_birthday_Ok in H; destruct H as (b & Hnew & ->).
    split; [|reflexivity]; split; [exact Hps|]; simpl.
    intros b' [= <-]; exact (proj1 (birthday_new_ok s b Hnew)).
Qed.

Lemma record_ok_kept_witness :
  record_ok (U := table) (Record_.mk "Ann" [Phone.mk "0501234567"] None).
Proof.
  exact (proj1 (proj1 (record_ok_kept (U := table) (Record_.new "Ann")
                         (record_new_ok "Ann"))
                      "050 123 45 67"
                      (Record_.mk "Ann" [Phone.mk "0501234567"] None)
                      eq_refl)).
Defined.

(** ** AddressBook: adding, finding and deleting *)

(** X7: after [add_record], [find_record] of the record's name returns
    that record and every other name is found as before; the keys stay
    distinct; a new name goes to the end of the book, and a name already
    there is overwritten where it stands, the keys and their order
    unchanged. *)
Theorem add_record_find_record (book : AddressBook.t) (record : Record_.t) :
  let name := Record_.name record in
  let book' := AddressBook.add_record book record in
  AddressBook.find_record book' name = Some record
  /\ (forall other, other <> name ->
        AddressBook.find_record book' other
        = AddressBook.find_record book other)
  /\ (AddressBook.wf book -> AddressBook.wf book')
  /\ (AddressBook.find_record book name = None ->
      book' = (book ++ [(name, record)]))
  /\ (AddressBook.find_record book name <> None ->
      AddressBook.keys book' = AddressBook.keys book).
Proof.
  cbv zeta; unfold AddressBook.find_record, AddressBook.add_record.
  split; [apply get_set_same|].
  split; [intros other Hne; apply get_set_other; exact Hne|].
  split; [apply wf_set|].
  split; [apply set_absent | apply keys_set_present].
Qed.

Lemma add_record_find_record_witness :
  AddressBook.keys
    (AddressBook.add_record [(u "Alice", alice); (u "Ann", born_jan_6)]
                            (Record_.new "Alice"))
  = [u "Alice"; u "Ann"]
  /\ AddressBook.add_record [(u "Alice", alice)] born_jan_6
     = [(u "Alice", alice); (u "Ann", born_jan_6)].
Proof.
  split.
  - apply (proj2 (proj2 (proj2 (proj2
      (add_record_find_record [(u "Alice", alice); (u "Ann", born_jan_6)]
                              (Record_.new "Alice")))))).
    discriminate.
  - apply (proj1 (proj2 (proj2 (proj2
      (add_record_find_record [(u "Alice", alice)] born_jan_6))))).
    reflexivity.
Defined.

(** X8: adding a record under a name that is not in the book and then
    deleting that name gives the book back as it was. *)
Theorem add_then_delete_record (book : AddressBook.t) (record : Record_.t) :
  AddressBook.find_record book (Record_.name record) = None ->
  AddressBook.delete_record (AddressBook.add_record book record)
                            (Record_.name record)
  = (book, u "Record removed successfully.").
Proof.
  unfold AddressBook.find_record, AddressBook.add_record,
    AddressBook.delete_record, AddressBook.contains; intros Hnone.
  rewrite get_set_same, (set_absent _ record book Hnone).
  rewrite del_first by (apply get_None_notin; exact Hnone).
  rewrite app_nil_r; reflexivity.
Qed.

Lemma add_then_delete_record_witness :
  AddressBook.delete_record
    (AddressBook.add_record [(u "Alice", alice)] born_jan_6) "Ann"
  = ([(u "Alice", alice)], u "Record removed successfully.").
Proof.
  exact (add_then_delete_record [(u "Alice", alice)] born_jan_6 eq_refl).
Defined.

(** ** parse_input: the tokens of a line *)

Lemma forall_chars_app (p : char -> bool) (a b : str) :
  forall_chars p (a ++ b) = (forall_chars p a && forall_chars p b)%bool.
Proof.
  induction a as [|c a IH]; simpl; [reflexivity|].
  rewrite IH, andb_assoc; reflexivity.
Qed.

Lemma split_from_tokens (s : str) :
  forall tok, (forall t, tok = Some t -> token t) ->
              Forall token (split_from tok s).
Proof.
  induction s as [|c s IH]; simpl; intros tok Htok.
  - destruct tok as [t|]; repeat constructor; apply Htok; reflexivity.
  - destruct (isspace c) eqn:Ec.
    + destruct tok as [t|]; [constructor; [apply Htok; reflexivity|]|];
        apply IH; discriminate.
    + apply IH; intros t [= <-].
      destruct tok as [t0|].
      * destruct (Htok t0 eq_refl) as [_ Hu]; split;
          [destruct t0; discriminate|].
        rewrite forall_chars_app, Hu; simpl; rewrite Ec; reflexivity.
      * split; [discriminate | simpl; rewrite Ec; reflexivity].
Qed.

(** X9: no token [parse_input] returns is empty or has a white space
    character in it. *)
Theorem parse_input_tokens (user_input : str) :
  Forall token (parse_input user_input).
Proof.
  destruct user_input; [constructor|].
  apply split_from_tokens; discriminate.
Qed.

Lemma split_from_word (t : str) :
  forall tok rest,
    t <> [] ->
    forall_chars (fun c => negb (isspace c)) t = true ->
    split_from tok (t ++ rest) = split_from (Some (current_token tok ++ t))
        rest.
Proof.
  induction t as [|c t IH]; intros tok rest Hne Hns; [congruence|].
  simpl in Hns; apply andb_true_iff in Hns; destruct Hns as [Hc Ht].
  apply negb_true_iff in Hc.
  cbn [app split_from]; rewrite Hc.
  assert (Hstep : match tok with
                  | Some t0 => t0 ++ [c]
                  | None => [c]
                  end = current_token tok ++ [c])
    by (destruct tok; reflexivity).
  rewrite Hstep.
  destruct t as [|c' t'].
  - reflexivity.
  - rewrite (IH (Some (current_token tok ++ [c])) rest) by
      (discriminate || exact Ht).
    simpl current_token; rewrite append_assoc; reflexivity.
Qed.

Lemma split_from_space (t rest : str) :
  split_from (Some t) (" " ++ rest) = t :: split_from None rest.
Proof. reflexivity. Qed.

Lemma split_join (tokens : list str) :
  Forall token tokens -> split (join " " tokens) = tokens.
Proof.
  unfold split; induction 1 as [|t ts [Hne Hns] Hts IH]; [reflexivity|].
  destruct ts as [|t' ts'].
  - simpl join; rewrite <- (append_nil_r t) at 1.
    rewrite split_from_word by assumption; reflexivity.
  - change (join " " (t :: t' :: ts'))
      with (t ++ " " ++ join " " (t' :: ts')).
    rewrite split_from_word by assumption.
    simpl current_token; rewrite split_from_space, IH; reflexivity.
Qed.

Lemma parse_input_split (user_input : str) :
  parse_input user_input = split user_input.
Proof. destruct user_input; reflexivity. Qed.

(** X10: a line written as tokens separated by single blanks is parsed
    back into exactly these tokens. *)
Theorem parse_input_join (tokens : list str) :
  Forall token tokens -> parse_input (join " " tokens) = tokens.
Proof.
  intros H; rewrite parse_input_split; apply split_join; exact H.
Qed.

Lemma parse_input_join_witness :
  parse_input "add Alice 0501234567" = [u "add"; u "Alice"; u "0501234567"].
Proof.
  apply (parse_input_join [u "add"; u "Alice"; u "0501234567"]).
  repeat constructor; discriminate.
Defined.

Lemma split_from_Some (s : str) (t : str) : split_from (Some t) s <> [].
Proof.
  revert t; induction s as [|c s IH]; simpl; intros t; [discriminate|].
  destruct (isspace c); [discriminate | apply IH].
Qed.

Lemma split_from_None (s : str) : split_from None s = [] <-> blank s = true.
Proof.
  unfold blank; induction s as [|c s IH]; simpl; [tauto|].
  destruct (isspace c); simpl; [exact IH|].
  split; [intros H; exfalso; exact (split_from_Some _ _ H) | discriminate].
Qed.

(** X11: [parse_input] returns the empty list exactly on the lines that
    hold nothing but white space, the empty line among them. *)
Theorem parse_input_empty_iff_blank (user_input : str) :
  parse_input user_input = [] <-> blank user_input = true.
Proof.
  destruct user_input as [|c s]; [split; reflexivity|].
  apply split_from_None.
Qed.

Lemma parse_input_empty_iff_blank_witness : parse_input "   " = [].
Proof.
  apply (proj2 (parse_input_empty_iff_blank "   ")); reflexivity.
Defined.

(** A no-break space (U+00A0) and an ideographic space (U+3000) separate
    the tokens as a blank does, and a line of them is a blank line. *)
Example parse_input_unicode_spaces :
  parse_input ("add" ++ [160%N] ++ "Bob" ++ [12288%N] ++ "12")
  = [u "add"; u "Bob"; u "12"].
Proof. reflexivity. Qed.

Example parse_input_no_break_space : parse_input [160%N; 12288%N] = [].
Proof. reflexivity. Qed.

(** ** Handlers: what they raise *)

Lemma edit_loop_caught `{U : UnicodeData} (v new : str) (ps : list Phone.t) :
  caught (Record_.edit_loop v new ps).
Proof.
  induction ps as [|q ps IH]; simpl; [exact I|].
  destruct (str_eqb (Phone.value q) v).
  - destruct (phone_new_outcome new) as [[np ->]| ->]; exact I.
  - destruct (Record_.edit_loop v new ps) as [rest|[]|]; simpl; auto.
Qed.

Lemma edit_phone_caught `{U : UnicodeData} (self : Record_.t) (v new : str) :
  caught (Record_.edit_phone self v new).
Proof.
  unfold Record_.edit_phone.
  pose proof (edit_loop_caught v new (Record_.phones self)) as H.
  destruct (Record_.edit_loop v new (Record_.phones self)) as [ps|[]|];
    simpl; auto.
Qed.

Lemma add_phone_caught `{U : UnicodeData} (self : Record_.t) (raw : str) :
  caught (Record_.add_phone self raw).
Proof.
  destruct (add_phone_outcome self raw) as [[self' ->]| ->]; exact I.
Qed.

Lemma birthday_new_outcome `{U : UnicodeData} (s : str) :
  (exists b, Birthday.new s = Ok b)
  \/ Birthday.new s = Raise (ValueError "Invalid date format. Use DD.MM.YYYY").
Proof.
  unfold Birthday.new.
  destruct (strptime_outcome s) as [[x ->]|[msg ->]]; simpl; eauto.
Qed.

Lemma add_birthday_outcome `{U : UnicodeData} (self : Record_.t) (s : str) :
  (exists b, Birthday.new s = Ok b
             /\ Record_.add_birthday self s
                = Ok (Record_.set_birthday self (Some b)))
  \/ (Record_.add_birthday self s
      = Raise (ValueError
          "Error adding birthday: Invalid date format. Use DD.MM.YYYY")
      /\ Birthday.new s
         = Raise (ValueError "Invalid date format. Use DD.MM.YYYY")).
Proof.
  unfold Record_.add_birthday.
  destruct (birthday_new_outcome s) as [[b Hb]|Hb]; rewrite Hb; simpl; eauto.
Qed.

Lemma add_birthday_caught `{U : UnicodeData} (self : Record_.t) (s : str) :
  caught (Record_.add_birthday self s).
Proof.
  destruct (add_birthday_outcome self s) as [(b & _ & ->)|[-> _]]; exact I.
Qed.

Lemma get_upcoming_outcome (fuel : nat) (today : Date.t) (self : Record_.t) :
  (2 <= fuel)%nat ->
  (exists entries, Record_.get_upcoming_birthdays fuel today self = Ok entries
                   /\ (List.length entries <= 1)%nat)
  \/ (exists msg, Record_.get_upcoming_birthdays fuel today self
                  = Raise (ValueError msg)).
Proof.
  intros Hfuel; unfold Record_.get_upcoming_birthdays.
  destruct (Record_.birthday self) as [b|]; [|left; exists []; auto].
  destruct (project_outcome today (Birthday.date b))
    as [(d & Hproj & Hd)|[msg Hproj]].
  - destruct (roll_weekend_rolled fuel d) as (next & Hroll & _);
      [exact Hd | exact Hfuel |].
    unfold rbind in *.
    destruct (Date.replace_year (Birthday.date b) (Date.year today));
      try discriminate.
    rewrite Hproj, Hroll; left.
    destruct ((0 <=? Date.days_between next today)
              && (Date.days_between next today <=? 7))%bool;
      eexists; split; try reflexivity; simpl; lia.
  - right; exists msg; unfold rbind in *.
    destruct (Date.replace_year (Birthday.date b) (Date.year today));
      [rewrite Hproj; reflexivity | injection Hproj as ->; reflexivity
      | discriminate].
Qed.

Lemma collect_upcoming_caught (fuel : nat) (today : Date.t)
      (records : list Record_.t) :
  (2 <= fuel)%nat -> caught (collect_upcoming fuel today records).
Proof.
  intros Hfuel; induction records as [|r rs IH]; simpl; [exact I|].
  assert (Hr : caught match Record_.birthday r with
                      | Some _ => Record_.get_upcoming_birthdays fuel today r
                      | None => Ok []
                      end).
  { destruct (Record_.birthday r); [|exact I].
    destruct (get_upcoming_outcome fuel today r Hfuel)
      as [(es & -> & _)|[msg ->]]; exact I. }
  destruct (match Record_.birthday r with
            | Some _ => Record_.get_upcoming_birthdays fuel today r
            | None => Ok []
            end) as [found|[]|]; simpl; auto.
  destruct (collect_upcoming fuel today rs) as [more|[]|]; simpl; auto.
Qed.

Lemma caught_ret (A : Type) (a : A) : raises_caught_only (ret a).
Proof. intros book; exact I. Qed.

Lemma caught_bind (A B : Type) (m : M A) (f : A -> M B) :
  raises_caught_only m -> (forall a, raises_caught_only (f a)) ->
  raises_caught_only (bind m f).
Proof.
  intros Hm Hf book; unfold bind; specialize (Hm book).
  destruct (m book) as [[a|e|] book']; simpl in *; [apply Hf|..]; assumption.
Qed.

Lemma caught_catch (A : Type) (m : M A) (h : str -> M A) :
  raises_caught_only m -> (forall msg, raises_caught_only (h msg)) ->
  raises_caught_only (catch_ValueError m h).
Proof.
  intros Hm Hh book; unfold catch_ValueError; specialize (Hm book).
  destruct (m book) as [[a|[msg| | |]|] book']; simpl in *;
    [|apply Hh|..]; assumption.
Qed.

Lemma caught_mutate (name : str) (r : result Record_.t) :
  caught r -> raises_caught_only (mutate name r).
Proof. intros Hr book; unfold mutate; destruct r as [x|[]|]; exact Hr. Qed.

Lemma caught_pure (A : Type) (f : AddressBook.t -> result A) :
  (forall book, caught (f book)) ->
  raises_caught_only (fun book => (f book, book)).
Proof. intros H book; apply H. Qed.

Lemma input_error_Ok (func : M str) :
  raises_caught_only func ->
  forall book, exists s,
    input_error func book = (Ok s, snd (func book)).
Proof.
  intros H book; unfold input_error; specialize (H book).
  destruct (func book) as [[s|[msg| | |]|] book']; simpl in *;
    try contradiction; eauto.
Qed.

Ltac caught_handler :=
  repeat (first
    [ apply caught_bind; [|intros]
    | apply caught_catch; [|intros]
    | apply caught_ret
    | apply caught_mutate;
      first [apply add_phone_caught | apply edit_phone_caught
            | apply add_birthday_caught]
    | intros ?; exact I
    | match goal with
      | |- raises_caught_only (if ?c then _ else _) => destruct c
      | |- raises_caught_only (match ?x with _ => _ end) => destruct x
      | |- raises_caught_only (let '(_, _) := ?x in _) => destruct x
      end ]).

Lemma add_contact_Ok `{U : UnicodeData}
      (args : list str) (book : AddressBook.t) :
  exists s book', add_contact args book = (Ok s, book').
Proof.
  unfold add_contact.
  edestruct input_error_Ok as [s ->]; [caught_handler | eauto].
Qed.

Lemma change_contact_Ok `{U : UnicodeData}
      (args : list str) (book : AddressBook.t) :
  exists s book', change_contact args book = (Ok s, book').
Proof.
  unfold change_contact.
  edestruct input_error_Ok as [s ->]; [caught_handler | eauto].
Qed.

Lemma add_birthday_Ok_string `{U : UnicodeData}
      (args : list str) (book : AddressBook.t) :
  exists s book', add_birthday args book = (Ok s, book').
Proof.
  unfold add_birthday.
  edestruct input_error_Ok as [s ->]; [caught_handler | eauto].
Qed.

Lemma show_birthday_Ok (args : list str) (book : AddressBook.t) :
  exists s, show_birthday args book = (Ok s, book).
Proof.
  unfold show_birthday, input_error, bind, call_find_record.
  destruct args as [|name rest]; simpl; [eauto|].
  destruct (AddressBook.find_record book name) as [r|]; simpl; [|eauto].
  destruct (Record_.birthday r); simpl; eauto.
Qed.

Lemma show_phones_Ok (args : list str) (book : AddressBook.t) :
  exists s, show_phones args book = (Ok s, book).
Proof.
  unfold show_phones, input_error, bind, call_find_record.
  destruct args as [|name rest]; [simpl; eauto|].
  replace (len (name :: rest) <? 1) with false
    by (symmetry; apply Z.ltb_ge; unfold len; simpl List.length; lia).
  simpl.
  destruct (AddressBook.find_record book name) as [r|]; simpl; eauto.
Qed.

Lemma show_all_Ok (book : AddressBook.t) :
  exists s, show_all book = (Ok s, book).
Proof.
  unfold show_all, input_error; destruct book; simpl; eauto.
Qed.

Lemma birthdays_Ok (fuel : nat) (today : Date.t) (args : list str)
      (book : AddressBook.t) :
  (2 <= fuel)%nat ->
  exists s, birthdays fuel today args book = (Ok s, book).
Proof.
  intros Hfuel; unfold birthdays, input_error.
  pose proof (collect_upcoming_caught fuel today (map snd book) Hfuel) as H.
  destruct (collect_upcoming fuel today (map snd book)) as [es|[]|];
    simpl in *; try contradiction; eauto.
  destruct (map _ es); eauto.
Qed.

(** ** The command loop: how a turn ends *)

Lemma main_step_tokens `{U : UnicodeData}
      (fuel : nat) (today : Date.t) (book : AddressBook.t)
      (user_input command : str) (args : list str) :
  (2 <= fuel)%nat ->
  parse_input user_input = command :: args ->
  exists book' printed,
    main_step fuel today book user_input = Continue book' printed
    \/ (main_step fuel today book user_input = Break book printed
        /\ (command = "close" \/ command = "exit")).
Proof.
  intros Hfuel Hparse; unfold main_step; rewrite Hparse.
  destruct (str_eqb_spec command "close") as [->|_];
    [exists book, "Good bye!"; right; simpl; auto|].
  destruct (str_eqb_spec command "exit") as [->|_];
    [exists book, "Good bye!"; right; simpl; auto|].
  simpl orb; cbv iota.
  destruct (str_eqb command "hello");
    [do 2 eexists; left; reflexivity|].
  destruct (str_eqb command "add").
  { destruct (add_contact_Ok args book) as (s & book' & ->).
    do 2 eexists; left; reflexivity. }
  destruct (str_eqb command "change").
  { destruct (change_contact_Ok args book) as (s & book' & ->).
    do 2 eexists; left; reflexivity. }
  destruct (str_eqb command "phone").
  { destruct (show_phones_Ok args book) as (s & ->).
    do 2 eexists; left; reflexivity. }
  destruct (str_eqb command "all").
  { destruct (show_all_Ok book) as (s & ->).
    do 2 eexists; left; reflexivity. }
  destruct (str_eqb command "add_birthday").
  { destruct (add_birthday_Ok_string args book) as (s & book' & ->).
    do 2 eexists; left; reflexivity. }
  destruct (str_eqb command "show_birthday").
  { destruct (show_birthday_Ok args book) as (s & ->).
    do 2 eexists; left; reflexivity. }
  destruct (str_eqb command "birthdays").
  { destruct (birthdays_Ok fuel today args book Hfuel) as (s & ->).
    do 2 eexists; left; reflexivity. }
  do 2 eexists; left; reflexivity.
Qed.

Lemma main_step_not_blank `{U : UnicodeData}
      (fuel : nat) (today : Date.t) (book : AddressBook.t)
      (user_input : str) :
  (2 <= fuel)%nat ->
  blank user_input = false ->
  exists book' printed,
    main_step fuel today book user_input = Continue book' printed
    \/ main_step fuel today book user_input = Break book printed.
Proof.
  intros Hfuel Hb.
  destruct (parse_input user_input) as [|command args] eqn:E.
  - destruct user_input as [|c s]; [discriminate|].
    apply split_from_None in E; congruence.
  - destruct (main_step_tokens fuel today book user_input command args
                Hfuel E) as (book' & printed & [H|[H _]]);
      exists book', printed; [left | right]; exact H.
Qed.

(** X12: one turn of the loop ends with an uncaught exception on every
    blank line, and on no other line: every other line is answered, or
    is [close] or [exit]; no handler lets an exception through, and the
    week-end loop ends within two rounds. *)
Theorem main_step_uncaught_iff_blank `{U : UnicodeData}
        (fuel : nat) (today : Date.t) (book : AddressBook.t)
        (user_input : str) :
  (2 <= fuel)%nat ->
  (blank user_input = true ->
   main_step fuel today book user_input = Uncaught not_enough_values book)
  /\ (blank user_input = false ->
      exists book' printed,
        main_step fuel today book user_input = Continue book' printed
        \/ main_step fuel today book user_input = Break book printed).
Proof.
  intros Hfuel; split; intros Hb.
  - unfold main_step.
    destruct user_input as [|c s]; [reflexivity|].
    apply split_from_None in Hb; unfold parse_input, split; rewrite Hb.
    reflexivity.
  - apply main_step_not_blank; assumption.
Qed.

Lemma main_step_uncaught_iff_blank_witness :
  main_step (U := table) 2 (Date.mk 2024 1 1) [(u "Alice", alice)] "  "
  = Uncaught not_enough_values [(u "Alice", alice)]
  /\ exists book' printed,
       main_step (U := table) 2 (Date.mk 2024 1 1) [(u "Alice", alice)]
         "change Alice"
       = Continue book' printed
       \/ main_step (U := table) 2 (Date.mk 2024 1 1) [(u "Alice", alice)]
            "change Alice"
          = Break [(u "Alice", alice)] printed.
Proof.
  split.
  - apply (proj1 (main_step_uncaught_iff_blank (U := table) 2 (Date.mk 2024 1 1)
                    [(u "Alice", alice)] "  " (le_n 2))).
    reflexivity.
  - apply (proj2 (main_step_uncaught_iff_blank (U := table) 2 (Date.mk 2024 1 1)
                    [(u "Alice", alice)] "change Alice" (le_n 2))).
    reflexivity.
Defined.

(** ** The command loop: which commands change the book *)

(** X13: a line whose command is not [add], [change] or [add_birthday]
    leaves the book exactly as it was. *)
Theorem queries_leave_book `{U : UnicodeData}
        (fuel : nat) (today : Date.t) (book : AddressBook.t)
        (user_input command : str) (args : list str) :
  (2 <= fuel)%nat ->
  parse_input user_input = command :: args ->
  mutating_command command = false ->
  outcome_book (main_step fuel today book user_input) = book.
Proof.
  intros Hfuel Hparse Hmut; unfold main_step; rewrite Hparse.
  unfold mutating_command in Hmut.
  apply orb_false_iff in Hmut; destruct Hmut as [Hmut Hab].
  apply orb_false_iff in Hmut; destruct Hmut as [Ha Hc].
  rewrite Ha, Hc, Hab.
  destruct (str_eqb command "close" || str_eqb command "exit")%bool;
    [reflexivity|].
  destruct (str_eqb command "hello"); [reflexivity|].
  destruct (str_eqb command "phone").
  { destruct (show_phones_Ok args book) as (s & ->); reflexivity. }
  destruct (str_eqb command "all").
  { destruct (show_all_Ok book) as (s & ->); reflexivity. }
  destruct (str_eqb command "show_birthday").
  { destruct (show_birthday_Ok args book) as (s & ->); reflexivity. }
  destruct (str_eqb command "birthdays").
  { destruct (birthdays_Ok fuel today args book Hfuel) as (s & ->);
      reflexivity. }
  reflexivity.
Qed.

Lemma queries_leave_book_witness :
  outcome_book
    (main_step (U := table) 2 (Date.mk 2024 1 1) [(u "Alice", alice)]
       "birthdays")
  = [(u "Alice", alice)].
Proof.
  exact (queries_leave_book (U := table) 2 (Date.mk 2024 1 1)
           [(u "Alice", alice)]
           "birthdays" "birthdays" [] (le_n 2) eq_refl eq_refl).
Defined.

(** ** Handlers: what they do to the book *)

Lemma set_set (name : str) (x y : Record_.t) (book : AddressBook.t) :
  AddressBook.set name x (AddressBook.set name y book)
  = AddressBook.set name x book.
Proof.
  induction book as [|[k r] book IH]; simpl.
  - rewrite str_eqb_refl; reflexivity.
  - destruct (str_eqb_spec k name) as [->|Hk]; simpl.
    + rewrite str_eqb_refl; reflexivity.
    + apply str_eqb_neq in Hk; rewrite Hk, IH; reflexivity.
Qed.

Lemma persists_refl (r : Record_.t) : persists r r.
Proof. repeat split; auto. Qed.

Lemma add_phone_keeps `{U : UnicodeData} (self self' : Record_.t) (raw : str) :
  Record_.add_phone self raw = Ok self' ->
  persists self self' /\ (record_ok self -> record_ok self').
Proof.
  intros H; apply add_phone_Ok in H; destruct H as (p & Hp & ->).
  split; [repeat split; auto; simpl; rewrite length_app; lia|].
  intros [Hps Hb]; split; [|exact Hb]; simpl.
  apply Forall_app; split; [exact Hps|].
  constructor; [exact (phone_new_ok raw p Hp) | constructor].
Qed.

Lemma edit_phone_keeps `{U : UnicodeData}
      (self self' : Record_.t) (v new : str) :
  Record_.edit_phone self v new = Ok self' ->
  persists self self'
  /\ List.length (Record_.phones self') = List.length (Record_.phones self)
  /\ (record_ok self -> record_ok self').
Proof.
  unfold Record_.edit_phone.
  destruct (Record_.edit_loop v new (Record_.phones self)) as [ps| |] eqn:E;
    simpl; try discriminate.
  intros [= <-].
  assert (Hl : List.length ps = List.length (Record_.phones self)).
  { clear - E; revert ps E.
    induction (Record_.phones self) as [|q qs IH]; simpl; intros ps;
      [discriminate|].
    destruct (str_eqb (Phone.value q) v).
    - destruct (phone_new_outcome new) as [[np ->]| ->]; simpl;
        [intros [= <-]; reflexivity | discriminate].
    - destruct (Record_.edit_loop v new qs) as [rest| |]; simpl;
        try discriminate.
      intros [= <-]; simpl; rewrite (IH rest eq_refl); reflexivity. }
  split; [repeat split; auto; simpl; lia|]; split; [exact Hl|].
  intros [Hps Hb]; split; [|exact Hb]; simpl.
  exact (proj1 (edit_loop_Forall v new _ ps E Hps)).
Qed.

Lemma remove_phone_keeps `{U : UnicodeData} (self self' : Record_.t) (v : str) :
  Record_.remove_phone self v = Ok self' ->
  Record_.name self' = Record_.name self
  /\ Record_.birthday self' = Record_.birthday self
  /\ (record_ok self -> record_ok self').
Proof.
  unfold Record_.remove_phone.
  destruct (Record_.remove_loop v (Record_.phones self)) as [ps|] eqn:E;
    [|discriminate].
  intros [= <-]; repeat split; simpl; [|apply H].
  destruct H as [Hps _]; exact (remove_loop_Forall phone_ok v _ ps E Hps).
Qed.

Lemma add_birthday_keeps `{U : UnicodeData} (self self' : Record_.t) (s : str) :
  Record_.birthday self = None ->
  Record_.add_birthday self s = Ok self' ->
  persists self self' /\ (record_ok self -> record_ok self').
Proof.
  intros Hnone H; apply add_birthday_Ok in H; destruct H as (b & Hnew & ->).
  split; [repeat split; auto; rewrite Hnone; discriminate|].
  intros [Hps Hb]; split; [exact Hps|]; simpl.
  intros b' [= <-]; exact (proj1 (birthday_new_ok s b Hnew)).
Qed.

Lemma effect_existing `{U : UnicodeData} (name : str) (rest : list str)
      (record r' : Record_.t) (book : AddressBook.t) :
  AddressBook.get name book = Some record ->
  persists record r' -> (record_ok record -> record_ok r') ->
  effect (name :: rest) book (AddressBook.set name r' book).
Proof.
  intros Hget Hp Hok; right; exists name, rest, r'.
  split; [reflexivity|]; split; [reflexivity|]; split.
  - intros r Hr; rewrite Hget in Hr; injection Hr as <-; auto.
  - rewrite Hget; discriminate.
Qed.

Lemma effect_fresh `{U : UnicodeData} (name : str) (rest : list str)
      (r' : Record_.t) (book : AddressBook.t) :
  AddressBook.get name book = None ->
  Record_.name r' = name -> record_ok r' ->
  effect (name :: rest) book (AddressBook.set name r' book).
Proof.
  intros Hget Hn Hok; right; exists name, rest, r'.
  split; [reflexivity|]; split; [reflexivity|]; split.
  - rewrite Hget; discriminate.
  - auto.
Qed.

Lemma add_contact_effect `{U : UnicodeData}
      (args : list str) (book : AddressBook.t) :
  effect args book (snd (add_contact args book)).
Proof.
  unfold add_contact, input_error, bind, call_find_record, call_add_record,
    mutate, ret, raise.
  destruct (len args <? 2); [left; reflexivity|].
  destruct args as [|name [|phone rest]]; [left; reflexivity ..|].
  unfold AddressBook.find_record, AddressBook.add_record.
  destruct (AddressBook.get name book) as [record|] eqn:Eget; simpl.
  - destruct phone as [|c phone']; [left; reflexivity|].
    destruct (Record_.add_phone record (c :: phone')) as [r'|e|] eqn:Eadd.
    + destruct (add_phone_keeps _ _ _ Eadd) as [Hp Hok].
      apply (effect_existing name _ record r' book Eget Hp Hok).
    + destruct e; left; reflexivity.
    + left; reflexivity.
  - destruct phone as [|c phone'];
      [apply effect_fresh; [exact Eget | reflexivity | apply record_new_ok]|].
    destruct (Record_.add_phone (Record_.new name) (c :: phone'))
      as [r'|e|] eqn:Eadd.
    + rewrite set_set.
      destruct (add_phone_keeps _ _ _ Eadd) as [(Hn & _) Hok].
      apply effect_fresh; [exact Eget | exact Hn | apply Hok, record_new_ok].
    + destruct e; simpl;
        apply effect_fresh;
        (exact Eget || reflexivity || apply record_new_ok).
    + apply effect_fresh; [exact Eget | reflexivity | apply record_new_ok].
Qed.

Lemma change_contact_effect `{U : UnicodeData}
      (args : list str) (book : AddressBook.t) :
  effect args book (snd (change_contact args book)).
Proof.
  unfold change_contact, input_error, bind, catch_ValueError,
    call_find_record, mutate, ret, raise.
  destruct (len args <? 2); [left; reflexivity|].
  destruct args as [|name [|new_phone [|x rest]]]; try (left; reflexivity).
  unfold AddressBook.find_record.
  destruct (AddressBook.get name book) as [record|] eqn:Eget; simpl;
    [|left; reflexivity].
  destruct (Record_.phones record) as [|p0 ps] eqn:Eps; [left; reflexivity|].
  destruct (Record_.edit_phone record (Phone.value p0) new_phone)
    as [r'|e|] eqn:Eedit.
  - destruct (edit_phone_keeps _ _ _ _ Eedit) as (Hp & _ & Hok).
    apply (effect_existing name _ record r' book Eget Hp Hok).
  - destruct e; left; reflexivity.
  - left; reflexivity.
Qed.

Lemma add_birthday_effect `{U : UnicodeData}
      (args : list str) (book : AddressBook.t) :
  effect args book (snd (add_birthday args book)).
Proof.
  unfold add_birthday, input_error, bind, catch_ValueError,
    call_find_record, mutate, ret, raise.
  destruct (len args <? 2); [left; reflexivity|].
  destruct args as [|name [|birthday [|x rest]]]; try (left; reflexivity).
  unfold AddressBook.find_record.
  destruct (AddressBook.get name book) as [record|] eqn:Eget; simpl;
    [|left; reflexivity].
  destruct (Record_.birthday record) as [b|] eqn:Eb; [left; reflexivity|].
  destruct (Record_.add_birthday record birthday) as [r'|e|] eqn:Eadd.
  - destruct (add_birthday_keeps _ _ _ Eb Eadd) as [Hp Hok].
    apply (effect_existing name _ record r' book Eget Hp Hok).
  - destruct e; left; reflexivity.
  - left; reflexivity.
Qed.

Lemma main_step_effect `{U : UnicodeData}
      (fuel : nat) (today : Date.t) (book : AddressBook.t)
      (user_input : str) :
  (2 <= fuel)%nat ->
  effect (tl (parse_input user_input)) book
         (outcome_book (main_step fuel today book user_input)).
Proof.
  intros Hfuel; unfold main_step.
  destruct (parse_input user_input) as [|command args]; [left; reflexivity|].
  simpl tl.
  destruct (str_eqb command "close" || str_eqb command "exit")%bool;
    [left; reflexivity|].
  destruct (str_eqb command "hello"); [left; reflexivity|].
  destruct (str_eqb command "add").
  { pose proof (add_contact_effect args book) as H.
    destruct (add_contact_Ok args book) as (s & book' & E).
    rewrite E in *; exact H. }
  destruct (str_eqb command "change").
  { pose proof (change_contact_effect args book) as H.
    destruct (change_contact_Ok args book) as (s & book' & E).
    rewrite E in *; exact H. }
  destruct (str_eqb command "phone").
  { destruct (show_phones_Ok args book) as (s & ->); left; reflexivity. }
  destruct (str_eqb command "all").
  { destruct (show_all_Ok book) as (s & ->); left; reflexivity. }
  destruct (str_eqb command "add_birthday").
  { pose proof (add_birthday_effect args book) as H.
    destruct (add_birthday_Ok_string args book) as (s & book' & E).
    rewrite E in *; exact H. }
  destruct (str_eqb command "show_birthday").
  { destruct (show_birthday_Ok args book) as (s & ->); left; reflexivity. }
  destruct (str_eqb command "birthdays").
  { destruct (birthdays_Ok fuel today args book Hfuel) as (s & ->);
      left; reflexivity. }
  left; reflexivity.
Qed.

(** ** The command loop: the invariant of the book *)

Lemma book_ok_get `{U : UnicodeData}
      (book : AddressBook.t) (name : str) (r : Record_.t) :
  book_ok book -> AddressBook.get name book = Some r ->
  Record_.name r = name /\ record_ok r.
Proof.
  intros [_ Hall]; induction Hall as [|[k x] rest [Hk Hx] _ IH]; simpl;
    [discriminate|].
  destruct (str_eqb_spec k name) as [->|_]; [|exact IH].
  intros [= <-]; auto.
Qed.

Lemma book_ok_set `{U : UnicodeData}
      (book : AddressBook.t) (name : str) (r : Record_.t) :
  book_ok book -> Record_.name r = name -> record_ok r ->
  book_ok (AddressBook.set name r book).
Proof.
  intros [Hwf Hall] Hn Hr; split; [apply wf_set; exact Hwf|].
  clear Hwf; induction Hall as [|[k x] rest [Hk Hx] Hrest IH]; simpl.
  - constructor; [split; assumption | constructor].
  - destruct (str_eqb_spec k name) as [->|_].
    + constructor; [split; assumption | exact Hrest].
    + constructor; [split; assumption | exact IH].
Qed.

Lemma book_ok_nil `{U : UnicodeData} : book_ok [].
Proof. split; constructor. Qed.

(** X14: every turn of the loop keeps the invariant of the book: keys are
    distinct, each record is stored under its own name, every stored
    phone is ten characters of digits and + - ( ), and every stored
    birthday date is what its string parses to.  The empty book has
    it. *)
Theorem main_step_book_ok `{U : UnicodeData}
        (fuel : nat) (today : Date.t) (book : AddressBook.t)
        (user_input : str) :
  (2 <= fuel)%nat ->
  book_ok book ->
  book_ok (outcome_book (main_step fuel today book user_input)).
Proof.
  intros Hfuel Hok.
  destruct (main_step_effect fuel today book user_input Hfuel)
    as [->|(name & rest & r' & _ & -> & Hsome & Hnone)]; [exact Hok|].
  destruct (AddressBook.get name book) as [r|] eqn:Eget.
  - destruct (book_ok_get book name r Hok Eget) as [Hn Hr].
    destruct (Hsome r eq_refl) as [(Hn' & _) Hr'].
    apply book_ok_set; [exact Hok | congruence | exact (Hr' Hr)].
  - destruct (Hnone eq_refl) as [Hn Hr]; apply book_ok_set; assumption.
Qed.

Lemma main_step_book_ok_witness :
  book_ok (U := table)
    (outcome_book
       (main_step (U := table) 2 (Date.mk 2024 1 1) []
          "add Alice 0501234567")).
Proof.
  exact (main_step_book_ok (U := table) 2 (Date.mk 2024 1 1) []
           "add Alice 0501234567" (le_n 2) book_ok_nil).
Defined.

(** X15: no command removes a contact, changes its name, changes or
    removes a birthday it has, or leaves it with fewer phones. *)
Theorem main_step_never_loses `{U : UnicodeData}
        (fuel : nat) (today : Date.t) (book : AddressBook.t)
        (user_input name : str) (r : Record_.t) :
  (2 <= fuel)%nat ->
  AddressBook.find_record book name = Some r ->
  exists r',
    AddressBook.find_record
      (outcome_book (main_step fuel today book user_input)) name = Some r'
    /\ persists r r'.
Proof.
  unfold AddressBook.find_record; intros Hfuel Hget.
  destruct (main_step_effect fuel today book user_input Hfuel)
    as [->|(n & rest & r' & _ & -> & Hsome & _)];
    [exists r; split; [exact Hget | apply persists_refl]|].
  destruct (str_eqb_spec name n) as [->|Hne].
  - exists r'; split; [apply get_set_same | exact (proj1 (Hsome r Hget))].
  - exists r; split; [|apply persists_refl].
    rewrite get_set_other by exact Hne; exact Hget.
Qed.

Lemma main_step_never_loses_witness :
  exists r',
    AddressBook.find_record
      (outcome_book
         (main_step (U := table) 2 (Date.mk 2024 1 1) [(u "Alice", alice)]
            "add_birthday Alice 01.01.2000"))
      "Alice" = Some r'
    /\ persists alice r'.
Proof.
  exact (main_step_never_loses (U := table) 2 (Date.mk 2024 1 1)
           [(u "Alice", alice)]
           "add_birthday Alice 01.01.2000" "Alice" alice (le_n 2) eq_refl).
Defined.

(** X16: a command without arguments leaves the book as it was, and a
    command with arguments changes at most the contact named by its
    first argument: every other name is found as before. *)
Theorem main_step_one_contact `{U : UnicodeData}
        (fuel : nat) (today : Date.t) (book : AddressBook.t)
        (user_input command : str) (args : list str) :
  (2 <= fuel)%nat ->
  parse_input user_input = command :: args ->
  let book' := outcome_book (main_step fuel today book user_input) in
  (args = [] -> book' = book)
  /\ (forall name rest other,
        args = name :: rest -> other <> name ->
        AddressBook.find_record book' other
        = AddressBook.find_record book other).
Proof.
  intros Hfuel Hparse book'; subst book'.
  pose proof (main_step_effect fuel today book user_input Hfuel) as H.
  rewrite Hparse in H; simpl tl in H.
  destruct H as [->|(n & rest' & r' & Hargs & -> & _)].
  - split; reflexivity.
  - split; [intros ->; discriminate|].
    intros name rest other Hargs' Hne; rewrite Hargs' in Hargs.
    injection Hargs as <- <-.
    unfold AddressBook.find_record; apply get_set_other; exact Hne.
Qed.

Lemma main_step_one_contact_witness :
  AddressBook.find_record
    (outcome_book (main_step (U := table) 2 (Date.mk 2024 1 1)
                     [(u "Alice", alice); (u "Ann", born_jan_6)]
                     "change Alice 0671234567")) "Ann"
  = Some born_jan_6.
Proof.
  exact (proj2 (main_step_one_contact (U := table) 2 (Date.mk 2024 1 1)
                  [(u "Alice", alice); (u "Ann", born_jan_6)]
                  "change Alice 0671234567" "change" [u "Alice"; u "0671234567"]
                  (le_n 2) eq_refl)
               "Alice" [u "0671234567"] "Ann" eq_refl
               ltac:(discriminate)).
Defined.

(** ** Handlers: what they answer *)

Lemma len_two (A : Type) (a b : A) (rest : list A) :
  (len (a :: b :: rest) <? 2) = false.
Proof. apply Z.ltb_ge; unfold len; simpl List.length; lia. Qed.

(** X17: for a contact of the book, [change] answers ["IndexError"] and
    changes nothing when the contact has no phone; otherwise it replaces
    the first phone by the new one, the others staying, when the new
    phone is accepted, and answers
    ["Error: Error: Phone number must contain 10 digits."] and changes
    nothing when it is refused. *)
Theorem change_contact_first_phone `{U : UnicodeData}
        (book : AddressBook.t) (name new : str) (record : Record_.t) :
  AddressBook.find_record book name = Some record ->
  (Record_.phones record = [] ->
   change_contact [name; new] book = (Ok (u "IndexError"), book))
  /\ (forall p0 ps np,
        Record_.phones record = p0 :: ps ->
        Phone.new new = Ok np ->
        change_contact [name; new] book
        = (Ok ("Phone number updated for " ++ name ++ "."),
           AddressBook.set name (Record_.set_phones record (np :: ps)) book))
  /\ (forall p0 ps,
        Record_.phones record = p0 :: ps ->
        (forall np, Phone.new new <> Ok np) ->
        change_contact [name; new] book
        = (Ok (u "Error: Error: Phone number must contain 10 digits."), book)).
Proof.
  intros Hfind.
  unfold change_contact, input_error, bind, catch_ValueError,
    call_find_record, mutate, ret, raise.
  rewrite len_two, Hfind; cbv iota beta.
  split; [intros ->; reflexivity|]; split.
  - intros p0 ps np Hps Hnew; rewrite Hps.
    unfold Record_.edit_phone; rewrite Hps; simpl.
    rewrite str_eqb_refl, Hnew; simpl.
    destruct np; reflexivity.
  - intros p0 ps Hps Hnew; rewrite Hps.
    unfold Record_.edit_phone; rewrite Hps; simpl.
    rewrite str_eqb_refl.
    destruct (phone_new_outcome new) as [[np Hnp]| ->];
      [exfalso; exact (Hnew np Hnp) | reflexivity].
Qed.

Lemma change_contact_first_phone_witness :
  change_contact (U := table) [u "Ann"; u "0671234567"]
    [(u "Ann", three_phones)]
  = (Ok (u "Phone number updated for Ann."),
     [(u "Ann", Record_.mk "Ann"
                [Phone.mk "0671234567"; Phone.mk "2222222222";
                 Phone.mk "3333333333"; Phone.mk "2222222222"] None)])
  /\ change_contact (U := table) [u "Ann"; u "0671234567"]
       [(u "Ann", born_jan_6)]
     = (Ok (u "IndexError"), [(u "Ann", born_jan_6)]).
Proof.
  split.
  - exact (proj1 (proj2 (change_contact_first_phone (U := table)
                           [(u "Ann", three_phones)]
                           "Ann" "0671234567" three_phones eq_refl))
                 (Phone.mk "1111111111")
                 [Phone.mk "2222222222"; Phone.mk "3333333333";
                  Phone.mk "2222222222"]
                 (Phone.mk "0671234567") eq_refl eq_refl).
  - exact (proj1 (change_contact_first_phone (U := table)
                    [(u "Ann", born_jan_6)]
                    "Ann" "0671234567" born_jan_6 eq_refl) eq_refl).
Defined.

Lemma phone_new_nonempty `{U : UnicodeData} (raw : str) (p : Phone.t) :
  Phone.new raw = Ok p -> raw <> [].
Proof. intros H ->; discriminate. Qed.

(** X18: after [add] with a phone that is accepted, to a new contact or to
    one of the book, [phone] for that name lists the phones the contact
    had, in order, and then the stored form of the new one. *)
Theorem add_contact_then_show_phones `{U : UnicodeData}
        (book : AddressBook.t) (name phone : str) (rest : list str)
        (p : Phone.t) :
  Phone.new phone = Ok p ->
  let old := match AddressBook.find_record book name with
             | Some record => Record_.phones record
             | None => []
             end in
  let message := match AddressBook.find_record book name with
                 | Some _ => u "Contact updated."
                 | None => u "Contact added."
                 end in
  exists book',
    add_contact (name :: phone :: rest) book = (Ok message, book')
    /\ show_phones [name] book'
       = (Ok ("Phones for " ++ name ++ ": "
              ++ join ", " (map Phone.value (old ++ [p]))), book').
Proof.
  intros Hnew; cbv zeta.
  pose proof (phone_new_nonempty phone p Hnew) as Hne.
  unfold add_contact, show_phones, input_error, bind, call_find_record,
    call_add_record, mutate, ret.
  rewrite len_two.
  unfold AddressBook.find_record, AddressBook.add_record.
  destruct phone as [|c phone']; [congruence|].
  unfold Record_.add_phone; rewrite Hnew.
  destruct (AddressBook.get name book) as [record|] eqn:Eget; simpl.
  - eexists; split; [reflexivity|].
    rewrite get_set_same; reflexivity.
  - eexists; split; [reflexivity|].
    rewrite get_set_same; reflexivity.
Qed.

Lemma add_contact_then_show_phones_witness :
  exists book',
    add_contact (U := table) [u "Alice"; u "067 123 45 67"]
      [(u "Alice", alice)]
    = (Ok (u "Contact updated."), book')
    /\ show_phones [u "Alice"] book'
       = (Ok (u "Phones for Alice: 0501234567, 0671234567"), book').
Proof.
  exact (add_contact_then_show_phones (U := table) [(u "Alice", alice)]
           "Alice" "067 123 45 67" [] (Phone.mk "0671234567") eq_refl).
Defined.

(** X19: for a contact without a birthday and a date that is accepted,
    [add_birthday] stores it, [show_birthday] then answers with the
    date string exactly as it was typed, and every later [add_birthday]
    for that contact is refused. *)
Theorem add_birthday_then_show_birthday `{U : UnicodeData}
        (book : AddressBook.t) (name date_arg : str)
        (record : Record_.t) (b : Birthday.t) :
  AddressBook.find_record book name = Some record ->
  Record_.birthday record = None ->
  Birthday.new date_arg = Ok b ->
  let book' := AddressBook.set name
                 (Record_.set_birthday record (Some b)) book in
  add_birthday [name; date_arg] book
  = (Ok ("Birthday added successfully for " ++ name ++ "."), book')
  /\ show_birthday [name] book'
     = (Ok (name ++ "'s birthday: " ++ date_arg), book')
  /\ forall other_date,
       add_birthday [name; other_date] book'
       = (Ok ("Birthday already exists for " ++ name ++ "."), book').
Proof.
  intros Hfind Hnone Hnew; cbv zeta.
  pose proof (proj2 (birthday_new_ok date_arg b Hnew)) as Hval.
  unfold add_birthday, show_birthday, input_error, bind, catch_ValueError,
    call_find_record, mutate, ret.
  rewrite !len_two.
  unfold AddressBook.find_record in *.
  rewrite Hfind, Hnone; cbv iota beta.
  unfold Record_.add_birthday; rewrite Hnew; simpl.
  rewrite get_set_same; simpl; rewrite Hval.
  repeat split.
Qed.

Lemma add_birthday_then_show_birthday_witness :
  add_birthday (U := table) [u "Ann"; u "7.11.1988"] [(u "Ann", three_phones)]
  = (Ok (u "Birthday added successfully for Ann."),
     [(u "Ann", Record_.set_birthday three_phones
                (Some (Birthday.mk "7.11.1988" (Date.mk 1988 11 7))))])
  /\ show_birthday [u "Ann"]
       [(u "Ann", Record_.set_birthday three_phones
                  (Some (Birthday.mk "7.11.1988" (Date.mk 1988 11 7))))]
     = (Ok (u "Ann's birthday: 7.11.1988"),
        [(u "Ann", Record_.set_birthday three_phones
                   (Some (Birthday.mk "7.11.1988" (Date.mk 1988 11 7))))]).
Proof.
  destruct (add_birthday_then_show_birthday (U := table)
              [(u "Ann", three_phones)] "Ann" "7.11.1988" three_phones
              (Birthday.mk "7.11.1988" (Date.mk 1988 11 7))
              eq_refl eq_refl eq_refl) as (Ha & Hs & _).
  split; [exact Ha | exact Hs].
Defined.

(** X20: [add_birthday] answers ["Record not found."] for a name that is
    not in the book, and for a contact without a birthday and a date
    that is refused it answers with the prefix twice,
    ["Error adding birthday: Error adding birthday: Invalid date
    format. Use DD.MM.YYYY"]; the book is unchanged in both cases. *)
Theorem add_birthday_failures `{U : UnicodeData}
        (book : AddressBook.t) (name date_arg : str) :
  (AddressBook.find_record book name = None ->
   add_birthday [name; date_arg] book = (Ok (u "Record not found."), book))
  /\ (forall record,
        AddressBook.find_record book name = Some record ->
        Record_.birthday record = None ->
        (forall b, Birthday.new date_arg <> Ok b) ->
        add_birthday [name; date_arg] book
        = (Ok (u
            "Error adding birthday: Error adding birthday: Invalid date format. Use DD.MM.YYYY"),
           book)).
Proof.
  unfold add_birthday, input_error, bind, catch_ValueError,
    call_find_record, mutate, ret.
  rewrite len_two; split.
  - intros ->; reflexivity.
  - intros record -> Hnone Hbad; cbv iota beta; rewrite Hnone.
    destruct (add_birthday_outcome record date_arg)
      as [(b & Hb & _)|[-> _]]; [exfalso; exact (Hbad b Hb) | reflexivity].
Qed.

Lemma add_birthday_failures_witness :
  add_birthday (U := table) [u "Bob"; u "01.01.2000"] [(u "Ann", three_phones)]
  = (Ok (u "Record not found."), [(u "Ann", three_phones)])
  /\ add_birthday (U := table) [u "Ann"; u "2000-01-01"]
       [(u "Ann", three_phones)]
     = (Ok ("Error adding birthday: Error adding birthday: "
            ++ "Invalid date format. Use DD.MM.YYYY"),
        [(u "Ann", three_phones)]).
Proof.
  split.
  - exact (proj1 (add_birthday_failures (U := table) [(u "Ann", three_phones)]
                    "Bob" "01.01.2000") eq_refl).
  - apply (proj2 (add_birthday_failures (U := table) [(u "Ann", three_phones)]
                    "Ann" "2000-01-01") three_phones);
      [reflexivity | reflexivity | intros b; vm_compute; discriminate].
Defined.

(** X21: with fewer than two arguments [add], [change] and [add_birthday]
    answer their "Not enough arguments" message, as [phone] does with
    none, while [show_birthday] with none answers ["IndexError"]; with
    more than two arguments [add] ignores the extra ones, while [change]
    and [add_birthday] answer
    ["ValueError: too many values to unpack (expected 2)"].  The book is
    unchanged except by [add] with extra arguments. *)
Theorem wrong_argument_count `{U : UnicodeData} (book : AddressBook.t) :
  (forall args,
     (List.length args < 2)%nat ->
     add_contact args book
     = (Ok (u
         "Not enough arguments. Please provide both name and phone number."),
        book)
     /\ change_contact args book
        = (Ok (u
            "Not enough arguments. Please provide both name and new phone number."),
           book)
     /\ add_birthday args book
        = (Ok (u
            "Not enough arguments. Please provide both name and birthday (DD.MM.YYYY)."),
           book))
  /\ show_phones [] book
     = (Ok (u "Not enough arguments. Please provide a name."), book)
  /\ show_birthday [] book = (Ok (u "IndexError"), book)
  /\ (forall name second extra rest,
        add_contact (name :: second :: extra :: rest) book
        = add_contact [name; second] book
        /\ change_contact (name :: second :: extra :: rest) book
           = (Ok (u "ValueError: too many values to unpack (expected 2)"), book)
        /\ add_birthday (name :: second :: extra :: rest) book
           = (Ok (u "ValueError: too many values to unpack (expected 2)"),
               book)).
Proof.
  split; [|split; [reflexivity|]; split; [reflexivity|]].
  - intros args Hlen.
    assert (Hlt : (len args <? 2) = true)
      by (apply Z.ltb_lt; unfold len; lia).
    unfold add_contact, change_contact, add_birthday; rewrite Hlt.
    repeat split.
  - intros name second extra rest.
    unfold add_contact, change_contact, add_birthday; rewrite !len_two.
    repeat split.
Qed.

Lemma wrong_argument_count_witness :
  change_contact (U := table) [u "Alice"] [(u "Alice", alice)]
  = (Ok (u
      "Not enough arguments. Please provide both name and new phone number."),
     [(u "Alice", alice)])
  /\ change_contact (U := table) [u "Alice"; u "067"; u "1234567"]
       [(u "Alice", alice)]
     = (Ok (u "ValueError: too many values to unpack (expected 2)"),
        [(u "Alice", alice)]).
Proof.
  destruct (wrong_argument_count (U := table) [(u "Alice", alice)])
    as (Hfew & _ & _ & Hmany).
  split.
  - exact (proj1 (proj2 (Hfew [u "Alice"] (le_n 2)))).
  - exact (proj1 (proj2 (Hmany "Alice" "067" "1234567" []))).
Defined.

(** ** Upcoming birthdays: the window *)

Lemma get_upcoming_rolled (fuel : nat) (today : Date.t) (self : Record_.t)
      (b : Birthday.t) :
  Record_.birthday self = Some b ->
  Date.valid today = true ->
  Spec.projects today (Birthday.date b) ->
  (2 <= fuel)%nat ->
  exists next,
    Spec.rolled (Spec.projected today (Birthday.date b)) next
    /\ Date.valid next = true
    /\ Record_.get_upcoming_birthdays fuel today self
       = Ok (if ((0 <=? Date.toordinal next - Date.toordinal today)
                 && (Date.toordinal next - Date.toordinal today <=? 7))%bool
             then [Record_.mk_entry (Record_.name self) (Date.strftime next)]
             else []).
Proof.
  intros Hb Ht Hproj Hfuel.
  destruct (roll_weekend_rolled fuel (Spec.projected today (Birthday.date b)))
    as (next & Hroll & Hvalid & Hrolled); [apply Hproj | exact Hfuel |].
  exists next; split; [exact Hrolled|]; split; [exact Hvalid|].
  unfold Record_.get_upcoming_birthdays; rewrite Hb.
  pose proof (project_Ok today (Birthday.date b) Ht Hproj) as Hp.
  unfold rbind in *.
  destruct (Date.replace_year (Birthday.date b) (Date.year today));
    try discriminate.
  rewrite Hp, Hroll; unfold Date.days_between.
  destruct ((0 <=? Date.toordinal next - Date.toordinal today)
            && (Date.toordinal next - Date.toordinal today <=? 7))%bool;
    reflexivity.
Qed.

Lemma projected_not_past (today birthday : Date.t) :
  Date.valid today = true ->
  Spec.projects today birthday ->
  Date.toordinal today <= Date.toordinal (Spec.projected today birthday).
Proof.
  intros Ht [Hthis Hproj]; unfold Spec.projected in *.
  destruct (Spec.before (Spec.this_year today birthday) today) eqn:E.
  - apply Z.lt_le_incl, toordinal_lt; [exact Ht | exact Hproj |].
    unfold Date.ltb; simpl.
    replace (Date.year today <? Date.year today + 1) with true
      by (symmetry; apply Z.ltb_lt; lia).
    reflexivity.
  - apply Z.ltb_ge; exact E.
Qed.

(** X22: when today is a date and the birthday can be projected, the date
    [get_upcoming_birthdays] computes is never before today, so the
    lower bound of its window test never excludes anything: the entry
    is returned exactly when that date is at most 7 days ahead. *)
Theorem congratulation_never_past
        (fuel : nat) (today : Date.t) (self : Record_.t) (b : Birthday.t) :
  Record_.birthday self = Some b ->
  Date.valid today = true ->
  Spec.projects today (Birthday.date b) ->
  (2 <= fuel)%nat ->
  exists next,
    Spec.rolled (Spec.projected today (Birthday.date b)) next
    /\ Date.valid next = true
    /\ Date.toordinal today <= Date.toordinal next
    /\ (Date.toordinal next - Date.toordinal today <= 7 ->
        Record_.get_upcoming_birthdays fuel today self
        = Ok [Record_.mk_entry (Record_.name self) (Date.strftime next)])
    /\ (7 < Date.toordinal next - Date.toordinal today ->
        Record_.get_upcoming_birthdays fuel today self = Ok []).
Proof.
  intros Hb Ht Hproj Hfuel.
  destruct (get_upcoming_rolled fuel today self b Hb Ht Hproj Hfuel)
    as (next & Hrolled & Hvalid & Hget).
  pose proof (projected_not_past today (Birthday.date b) Ht Hproj) as Hle.
  assert (Hnext : Date.toordinal today <= Date.toordinal next)
    by (destruct Hrolled as (k & Hk & Ho & _); lia).
  exists next; split; [exact Hrolled|]; split; [exact Hvalid|].
  split; [exact Hnext|]; rewrite Hget; split; intros Hd.
  - replace ((0 <=? Date.toordinal next - Date.toordinal today)
             && (Date.toordinal next - Date.toordinal today <=? 7))%bool
      with true by (symmetry; apply andb_true_iff; rewrite !Z.leb_le; lia).
    reflexivity.
  - replace (Date.toordinal next - Date.toordinal today <=? 7) with false
      by (symmetry; apply Z.leb_gt; lia).
    rewrite andb_false_r; reflexivity.
Qed.

Lemma congratulation_never_past_witness :
  Record_.get_upcoming_birthdays 2 (Date.mk 2024 1 7) born_jan_6 = Ok [].
Proof.
  destruct (congratulation_never_past 2 (Date.mk 2024 1 7) born_jan_6
              (Birthday.mk "06.01.1990" (Date.mk 1990 1 6))
              eq_refl eq_refl (conj eq_refl eq_refl) (le_n 2))
    as (next & (k & Hk & Hord & _) & _ & _ & _ & Hout).
  apply Hout; rewrite Hord.
  replace (Date.toordinal
             (Spec.projected (Date.mk 2024 1 7)
                (Birthday.date (Birthday.mk "06.01.1990" (Date.mk 1990 1 6)))))
    with (Date.toordinal (Date.mk 2024 1 7) + 365) by reflexivity.
  lia.
Defined.

(** X23: a birthday whose month and day are today's is always reported:
    with today's date when today is a week day, with the date today
    rolls to over the week-end otherwise. *)
Theorem birthday_today_reported
        (fuel : nat) (today : Date.t) (self : Record_.t) (b : Birthday.t) :
  Record_.birthday self = Some b ->
  Date.valid today = true ->
  Date.month (Birthday.date b) = Date.month today ->
  Date.day (Birthday.date b) = Date.day today ->
  (2 <= fuel)%nat ->
  exists next,
    Record_.get_upcoming_birthdays fuel today self
    = Ok [Record_.mk_entry (Record_.name self) (Date.strftime next)]
    /\ Spec.rolled today next
    /\ (Date.weekday today < 5 -> next = today).
Proof.
  intros Hb Ht Hm Hd Hfuel.
  assert (Hthis : Spec.this_year today (Birthday.date b) = today)
    by (unfold Spec.this_year; rewrite Hm, Hd; destruct today; reflexivity).
  assert (Hltb : Spec.before today today = false)
    by (unfold Spec.before; apply Z.ltb_irrefl).
  assert (Hprojd : Spec.projected today (Birthday.date b) = today)
    by (unfold Spec.projected; rewrite Hthis, Hltb; reflexivity).
  assert (Hproj : Spec.projects today (Birthday.date b))
    by (unfold Spec.projects; rewrite Hprojd, Hthis; auto).
  destruct (get_upcoming_rolled fuel today self b Hb Ht Hproj Hfuel)
    as (next & Hrolled & Hvalid & Hget).
  rewrite Hprojd in Hrolled.
  exists next; split; [|split; [exact Hrolled|]].
  - rewrite Hget; destruct Hrolled as (k & Hk & Ho & _).
    replace ((0 <=? Date.toordinal next - Date.toordinal today)
             && (Date.toordinal next - Date.toordinal today <=? 7))%bool
      with true by (symmetry; apply andb_true_iff; rewrite !Z.leb_le; lia).
    reflexivity.
  - intros Hw; apply (rolled_unique today next today Hvalid Ht Hrolled).
    exists 0; unfold Spec.is_weekend.
    split; [lia|]; split; [lia|]; split; [intros; lia | lia].
Qed.

Lemma birthday_today_reported_witness :
  Record_.get_upcoming_birthdays 2 (Date.mk 2025 1 6) born_jan_6
  = Ok [Record_.mk_entry "Ann" "06.01.2025"].
Proof.
  destruct (birthday_today_reported 2 (Date.mk 2025 1 6) born_jan_6
              (Birthday.mk "06.01.1990" (Date.mk 1990 1 6))
              eq_refl eq_refl eq_refl eq_refl (le_n 2))
    as (next & Hget & _ & Hsame).
  rewrite Hget, (Hsame ltac:(vm_compute; reflexivity)); reflexivity.
Defined.

(** ** birthdays: one date that cannot be projected *)

Lemma feb_29_not_this_year (today birthday : Date.t) :
  Spec.feb_29 birthday ->
  Date.is_leap (Date.year today) = false ->
  Date.valid (Spec.this_year today birthday) = false.
Proof.
  intros [Hm Hd] Hleap.
  apply not_true_iff_false; intros Hthis.
  unfold Spec.this_year, Date.valid in Hthis; simpl in Hthis.
  apply valid_ymd_iff in Hthis; destruct Hthis as (_ & _ & Hday).
  rewrite Hm, Hd in Hday; unfold Date.days_in_month in Hday.
  rewrite Hleap in Hday; simpl in Hday; lia.
Qed.

Lemma get_upcoming_not_this_year (fuel : nat) (today : Date.t)
      (r : Record_.t) (b : Birthday.t) :
  Record_.birthday r = Some b ->
  Date.valid (Spec.this_year today (Birthday.date b)) = false ->
  exists msg,
    Record_.get_upcoming_birthdays fuel today r = Raise (ValueError msg).
Proof.
  intros Hb Hno.
  unfold Record_.get_upcoming_birthdays, Date.replace_year; rewrite Hb.
  destruct (new_invalid (Date.year today) (Date.month (Birthday.date b))
              (Date.day (Birthday.date b)) Hno) as [msg ->]; simpl; eauto.
Qed.

Lemma collect_upcoming_raises (fuel : nat) (today : Date.t)
      (records : list Record_.t) (r : Record_.t) (b : Birthday.t) :
  (2 <= fuel)%nat ->
  In r records ->
  Record_.birthday r = Some b ->
  Date.valid (Spec.this_year today (Birthday.date b)) = false ->
  exists msg, collect_upcoming fuel today records = Raise (ValueError msg).
Proof.
  intros Hfuel Hin Hb Hno.
  induction records as [|x xs IH]; [contradiction|].
  simpl.
  destruct Hin as [->|Hin].
  - rewrite Hb.
    destruct (get_upcoming_not_this_year fuel today r b Hb Hno) as [msg ->].
    simpl; eauto.
  - destruct (IH Hin) as [msg Hrest].
    assert (Hx : (exists es, match Record_.birthday x with
                             | Some _ => Record_.get_upcoming_birthdays fuel
                                 today x
                             | None => Ok []
                             end = Ok es)
                 \/ (exists m, match Record_.birthday x with
                               | Some _ => Record_.get_upcoming_birthdays fuel
                                   today x
                               | None => Ok []
                               end = Raise (ValueError m))).
    { destruct (Record_.birthday x); [|left; eauto].
      destruct (get_upcoming_outcome fuel today x Hfuel)
        as [(es & -> & _)|[m ->]]; eauto. }
    destruct Hx as [[es ->]|[m ->]]; simpl; [rewrite Hrest|]; simpl; eauto.
Qed.

(** X25: when today's year is not a leap year, one contact born on
    February 29 anywhere in the book makes [birthdays] answer with a
    ["ValueError: ..."] string instead of the list, whatever the other
    contacts; the book is unchanged. *)
Theorem birthdays_one_feb_29
        (fuel : nat) (today : Date.t) (args : list str)
        (book : AddressBook.t) (name : str) (r : Record_.t)
        (b : Birthday.t) :
  (2 <= fuel)%nat ->
  In (name, r) book ->
  Record_.birthday r = Some b ->
  Spec.feb_29 (Birthday.date b) ->
  Date.is_leap (Date.year today) = false ->
  exists msg,
    birthdays fuel today args book = (Ok ("ValueError: " ++ msg), book).
Proof.
  intros Hfuel Hin Hb Hfeb Hleap.
  destruct (collect_upcoming_raises fuel today (map snd book) r b Hfuel)
    as [msg Hraise];
    [exact (in_map snd book (name, r) Hin) | exact Hb
    | apply feb_29_not_this_year; assumption |].
  exists msg; unfold birthdays, input_error; rewrite Hraise; reflexivity.
Qed.

Lemma birthdays_one_feb_29_witness :
  exists msg,
    birthdays 2 (Date.mk 2025 1 6) []
      [(u "Ann", born_jan_6); (u "Leo", born_feb_29)]
    = (Ok ("ValueError: " ++ msg),
       [(u "Ann", born_jan_6); (u "Leo", born_feb_29)]).
Proof.
  apply (birthdays_one_feb_29 2 (Date.mk 2025 1 6) []
           [(u "Ann", born_jan_6); (u "Leo", born_feb_29)] "Leo" born_feb_29
           (Birthday.mk "29.02.2000" (Date.mk 2000 2 29)) (le_n 2)).
  - right; left; reflexivity.
  - reflexivity.
  - split; reflexivity.
  - reflexivity.
Defined.

(** X26: fed lines none of which is blank, the loop never ends by an
    exception: it is waiting for the next line or has ended by [close]
    or [exit]. *)
Theorem main_loop_ends_only_by_exit `{U : UnicodeData}
        (fuel : nat) (inputs : list (Date.t * str)) :
  (2 <= fuel)%nat ->
  Forall (fun turn => blank (snd turn) = false) inputs ->
  forall book, graceful (snd (main_loop fuel book inputs)).
Proof.
  intros Hfuel Hall; induction Hall as [|[today line] rest Hline _ IH];
    intros book; simpl; [exact I|].
  destruct (main_step_not_blank fuel today book line Hfuel Hline)
    as (book' & printed & [-> | ->]).
  - specialize (IH book').
    destruct (main_loop fuel book' rest) as [out fin]; exact IH.
  - exact I.
Qed.

Lemma main_loop_ends_only_by_exit_witness :
  graceful (snd (main_loop (U := table) 2 []
                   [(Date.mk 2024 1 1, u "add Alice 12");
                    (Date.mk 2024 1 1, u "change Alice 0501234567");
                    (Date.mk 2024 1 1, u "change Bob");
                    (Date.mk 2024 1 1, u "show_birthday");
                    (Date.mk 2024 1 2, u "birthdays now")])).
Proof.
  apply (main_loop_ends_only_by_exit (U := table) 2); [apply le_n|].
  repeat constructor.
Defined.

